(** * dummy_collector: the metric collector, embedded and verified

  The development follows [dummy_collector.py] function by function:
  [parse_dynamic_args], [parse_args], [find_data_files],
  [load_result_from_file], [aggregate_results], [save_cli_debug] and
  [main].

  - Python dictionaries keep their insertion order, which the argument
    loop and the written document both depend on, so they are
    association lists with in-place update ([Dict]).
  - Exceptions are results ([Ok] / [Raise]); the [try] block of the
    extractor and the [except (ValueError, TypeError)] of the main loop
    are the places where they are caught.
  - The file system is a record of functions ([Collector.World]) and a
    run returns how it ended together with the directories and files it
    made, in order ([Collector.outcome]).
  - [print] calls are left out; the [debug] flag is kept where it
    changes what is evaluated.  Strings are byte strings. *)

From Stdlib Require Import String Ascii List Bool ZArith QArith Qabs Lia.
From Stdlib Require Import SpecFloat.
Import ListNotations.

Local Open Scope string_scope.
Local Open Scope list_scope.

Set Implicit Arguments.

(* ------------------------------------------------------------------ *)
(** ** Strings *)

Module Str.

(** [s.startswith(p)] *)
Definition startswith (p s : string) : bool := String.prefix p s.

(** [s.lstrip(c)] for a one-character set. *)
Fixpoint lstrip (c : ascii) (s : string) : string :=
  match s with
  | EmptyString => EmptyString
  | String a s' => if Ascii.eqb a c then lstrip c s' else s
  end.

(** [s.replace(a, b)] for one-character [a] and [b]. *)
Fixpoint replace (a b : ascii) (s : string) : string :=
  match s with
  | EmptyString => EmptyString
  | String x s' => String (if Ascii.eqb x a then b else x) (replace a b s')
  end.

(** [x in l] for a list of strings. *)
Definition mem (x : string) (l : list string) : bool :=
  existsb (String.eqb x) l.

(** Truth value of a string: empty is false. *)
Definition truthy (s : string) : bool :=
  match s with EmptyString => false | _ => true end.

(** [s.endswith(t)] *)
Fixpoint endswith (t s : string) : bool :=
  String.eqb s t ||
  match s with
  | EmptyString => false
  | String _ s' => endswith t s'
  end.

(** No string occurs twice in [l]. *)
Fixpoint distinct (l : list string) : bool :=
  match l with
  | [] => true
  | x :: l' => negb (mem x l') && distinct l'
  end.

End Str.

(* ------------------------------------------------------------------ *)
(** ** Dictionaries with string keys *)

Module Dict.
Section Ops.
Variable V : Type.

Definition t := list (string * V).

(** [d.get(k)]: the entry of [k], if any. *)
Fixpoint get (k : string) (d : t) : option V :=
  match d with
  | [] => None
  | (k', v) :: d' => if String.eqb k k' then Some v else get k d'
  end.

(** [k in d] *)
Definition mem (k : string) (d : t) : bool :=
  match get k d with Some _ => true | None => false end.

(** [d[k] = v]: an existing key keeps its position, a new one goes last. *)
Fixpoint set (k : string) (v : V) (d : t) : t :=
  match d with
  | [] => [(k, v)]
  | (k', v') :: d' =>
      if String.eqb k k' then (k', v) :: d' else (k', v') :: set k v d'
  end.

Definition keys (d : t) : list string := map fst d.

(** [{**d1, **d2}] *)
Definition merge (d1 d2 : t) : t :=
  fold_left (fun acc kv => set (fst kv) (snd kv) acc) d2 d1.

End Ops.
End Dict.

Arguments Dict.get {V} k d.
Arguments Dict.mem {V} k d.
Arguments Dict.set {V} k v d.
Arguments Dict.keys {V} d.
Arguments Dict.merge {V} d1 d2.

(* ------------------------------------------------------------------ *)
(** ** Results of fallible code *)

Inductive result (E A : Type) : Type :=
| Ok (a : A)
| Raise (e : E).

Arguments Ok {E A} a.
Arguments Raise {E A} e.

(* ------------------------------------------------------------------ *)
(** ** The argument parser *)

Module Args.

(** State of the grouping loop: [grouped_args] and [current_flag]. *)
Definition groups := Dict.t (list string).

Definition positional : string := "__positional__".

(** [grouped_args[key].append(arg)] *)
Definition append_to (key arg : string) (g : groups) : groups :=
  match Dict.get key g with
  | Some vs => Dict.set key (vs ++ [arg]) g
  | None => g
  end.

(** One turn of the [while] loop of [parse_dynamic_args]. *)
Definition group_step (st : groups * option string) (arg : string)
  : groups * option string :=
  let (grouped_args, current_flag) := st in
  if Str.startswith "--" arg then
    (Dict.set arg [] grouped_args, Some arg)
  else
    match current_flag with
    | Some flag =>
        if Str.truthy flag then (append_to flag arg grouped_args, current_flag)
        else
          let g := if Dict.mem positional grouped_args then grouped_args
                   else Dict.set positional [] grouped_args in
          (append_to positional arg g, current_flag)
    | None =>
        let g := if Dict.mem positional grouped_args then grouped_args
                 else Dict.set positional [] grouped_args in
        (append_to positional arg g, current_flag)
    end.

Definition parse_dynamic_args (argv : list string) : groups :=
  fst (fold_left group_step argv ([], None)).

(** [argparse.Namespace] with the attributes [parse_args] sets. *)
Record Namespace : Type := mkNamespace {
  input_pattern : string;
  output_dir : option string;
  metric_key : string;
  aggregation : string;
  debug : bool;
  prefix : string;
  collector : option string;
  extra : list string;
  name : option string;
  dynamic_args : Dict.t (list string)
}.

Definition defaults : Namespace :=
  {| input_pattern := "**/*_data.json";
     output_dir := None;
     metric_key := "result";
     aggregation := "all";
     debug := false;
     prefix := "";
     collector := None;
     extra := [];
     name := None;
     dynamic_args := [] |}.

(** [flag.lstrip("-").replace("-", "_")]; the loop computes it for
    every flag and reads it nowhere. *)
Definition flag_name (flag : string) : string :=
  Str.replace "-"%char "_"%char (Str.lstrip "-"%char flag).

(** [values[0] if values else dflt] *)
Definition first_or (A : Type) (values : list A) (dflt : A) : A :=
  match values with v :: _ => v | [] => dflt end.

Definition first_opt (values : list string) : option string :=
  match values with v :: _ => Some v | [] => None end.

Definition aggregation_modes : list string := ["avg"; "max"; "min"; "sum"; "all"].

(** Attribute assignments [args.<field> = v]. *)
Definition set_input_pattern (v : string) (a : Namespace) : Namespace :=
  mkNamespace v (output_dir a) (metric_key a) (aggregation a) (debug a)
    (prefix a) (collector a) (extra a) (name a) (dynamic_args a).

Definition set_output_dir (v : option string) (a : Namespace) : Namespace :=
  mkNamespace (input_pattern a) v (metric_key a) (aggregation a) (debug a)
    (prefix a) (collector a) (extra a) (name a) (dynamic_args a).

Definition set_metric_key (v : string) (a : Namespace) : Namespace :=
  mkNamespace (input_pattern a) (output_dir a) v (aggregation a) (debug a)
    (prefix a) (collector a) (extra a) (name a) (dynamic_args a).

Definition set_aggregation (v : string) (a : Namespace) : Namespace :=
  mkNamespace (input_pattern a) (output_dir a) (metric_key a) v (debug a)
    (prefix a) (collector a) (extra a) (name a) (dynamic_args a).

Definition set_debug (v : bool) (a : Namespace) : Namespace :=
  mkNamespace (input_pattern a) (output_dir a) (metric_key a) (aggregation a) v
    (prefix a) (collector a) (extra a) (name a) (dynamic_args a).

Definition set_prefix (v : string) (a : Namespace) : Namespace :=
  mkNamespace (input_pattern a) (output_dir a) (metric_key a) (aggregation a)
    (debug a) v (collector a) (extra a) (name a) (dynamic_args a).

Definition set_collector (v : option string) (a : Namespace) : Namespace :=
  mkNamespace (input_pattern a) (output_dir a) (metric_key a) (aggregation a)
    (debug a) (prefix a) v (extra a) (name a) (dynamic_args a).

Definition set_extra (v : list string) (a : Namespace) : Namespace :=
  mkNamespace (input_pattern a) (output_dir a) (metric_key a) (aggregation a)
    (debug a) (prefix a) (collector a) v (name a) (dynamic_args a).

Definition set_name (v : option string) (a : Namespace) : Namespace :=
  mkNamespace (input_pattern a) (output_dir a) (metric_key a) (aggregation a)
    (debug a) (prefix a) (collector a) (extra a) v (dynamic_args a).

Definition set_dynamic_args (v : Dict.t (list string)) (a : Namespace) : Namespace :=
  mkNamespace (input_pattern a) (output_dir a) (metric_key a) (aggregation a)
    (debug a) (prefix a) (collector a) (extra a) (name a) v.

(** Body of the [for flag, values in dynamic_args.items()] loop. *)
Definition process_flag (args : Namespace) (item : string * list string)
  : Namespace :=
  let (flag, values) := item in
  let _flag_name := flag_name flag in
  if flag =? "--input-pattern" then
    set_input_pattern (first_or values (input_pattern args)) args
  else if flag =? "--output_dir" then
    set_output_dir (first_opt values) args
  else if flag =? "--metric-key" then
    set_metric_key (first_or values (metric_key args)) args
  else if flag =? "--aggregation" then
    match values with
    | v :: _ => if Str.mem v aggregation_modes then set_aggregation v args else args
    | [] => args
    end
  else if flag =? "--debug" then
    set_debug true args
  else if flag =? "--prefix" then
    set_prefix (first_or values "") args
  else if flag =? "--collector" then
    set_collector (first_opt values) args
  else if flag =? "--extra" then
    set_extra (extra args ++ values) args
  else if flag =? "--name" then
    set_name (first_opt values) args
  else
    set_dynamic_args (Dict.set flag values (dynamic_args args)) args.

(** The message [parse_args] passes to [SystemExit]. *)
Definition output_dir_required : string := "Error: --output_dir is required".

(** [not args.output_dir]: unset, or set to the empty string. *)
Definition output_dir_missing (args : Namespace) : bool :=
  match output_dir args with
  | None => true
  | Some d => negb (Str.truthy d)
  end.

(** [parse_args], on [sys.argv[1:]]. [Raise msg] is [SystemExit(msg)]. *)
Definition parse_args (raw_args : list string) : result string Namespace :=
  let dynamic := parse_dynamic_args raw_args in
  let args := fold_left process_flag dynamic defaults in
  if output_dir_missing args then Raise output_dir_required else Ok args.

End Args.

(* ------------------------------------------------------------------ *)
(** ** Numbers

    A Python [float] is kept as the number it denotes: a finite double is
    the rational it stands for, next to the two infinities and NaN.
    Every arithmetic result is rounded to the nearest double, ties to
    even, with overflow to an infinity and underflow through the
    subnormals, by the binary64 rounding of [SpecFloat].  The sign of
    zero is not represented. *)

Module Float.

Inductive t : Type :=
| Finite (q : Q)
| PosInf
| NegInf
| NaN.

Definition zero : t := Finite 0.

Definition Qltb (a b : Q) : bool := negb (Qle_bool b a).

(** [x < y]; every comparison with NaN is false. *)
Definition ltb (x y : t) : bool :=
  match x, y with
  | NaN, _ | _, NaN => false
  | Finite a, Finite b => Qltb a b
  | NegInf, NegInf | PosInf, _ | _, NegInf => false
  | NegInf, _ | _, PosInf => true
  end.

(** [x > y] *)
Definition gtb (x y : t) : bool := ltb y x.

(** *** Rounding to binary64 *)

Definition prec : Z := 53.
Definition emax : Z := 1024.

(** The binary64 value nearest to [q]: the correctly rounded quotient
    of the numerator by the denominator of [q] in lowest terms. *)
Definition nearest (q : Q) : spec_float :=
  let r := Qred q in
  match Qnum r with
  | Z0 => S754_zero false
  | Zpos n =>
      SFdiv prec emax (S754_finite false n 0) (S754_finite false (Qden r) 0)
  | Zneg n =>
      SFdiv prec emax (S754_finite true n 0) (S754_finite false (Qden r) 0)
  end.

(** [m * 2^e] *)
Definition scale2 (m e : Z) : Q :=
  if (0 <=? e)%Z then inject_Z (m * 2 ^ e)
  else Qmake m (Z.to_pos (2 ^ (- e))).

Definition of_spec (x : spec_float) : t :=
  match x with
  | S754_zero _ => Finite 0
  | S754_infinity s => if s then NegInf else PosInf
  | S754_nan => NaN
  | S754_finite s m e => Finite (Qred (scale2 (if s then Zneg m else Zpos m) e))
  end.

(** The double a real result is delivered as. *)
Definition round (q : Q) : t := of_spec (nearest q).

(** [x + y] *)
Definition add (x y : t) : t :=
  match x, y with
  | NaN, _ | _, NaN => NaN
  | PosInf, NegInf | NegInf, PosInf => NaN
  | PosInf, _ | _, PosInf => PosInf
  | NegInf, _ | _, NegInf => NegInf
  | Finite a, Finite b => round (a + b)
  end.

(** [x / n] for a positive count [n]. *)
Definition div_count (x : t) (n : nat) : t :=
  match x with
  | Finite a => round (a / inject_Z (Z.of_nat n))
  | other => other
  end.

(** Magnitudes from here on round to an infinity: [2^1024 - 2^970], half
    an ulp above the largest double. *)
Definition overflow_bound : Z := 2 ^ 1024 - 2 ^ 970.

Definition in_range (q : Q) : bool :=
  Qltb (Qabs q) (inject_Z overflow_bound).

(** The double a decimal literal denotes. *)
Definition of_Q (q : Q) : t := round q.

(** *** [float(s)] on a string *)

Definition is_digit (c : ascii) : bool :=
  let n := nat_of_ascii c in ((48 <=? n) && (n <=? 57))%nat.

Definition is_space (c : ascii) : bool :=
  let n := nat_of_ascii c in
  (((9 <=? n) && (n <=? 13)) || ((28 <=? n) && (n <=? 32)))%nat.

Definition lower (c : ascii) : ascii :=
  let n := nat_of_ascii c in
  if ((65 <=? n) && (n <=? 90))%nat then ascii_of_nat (n + 32) else c.

Fixpoint drop_space (l : list ascii) : list ascii :=
  match l with
  | c :: l' => if is_space c then drop_space l' else l
  | [] => []
  end.

Definition strip (l : list ascii) : list ascii :=
  rev (drop_space (rev (drop_space l))).

(** Underscores may only stand between two digits; they are dropped. *)
Fixpoint drop_underscores (prev_digit : bool) (l : list ascii)
  : option (list ascii) :=
  match l with
  | [] => Some []
  | c :: l' =>
      if Ascii.eqb c "_" then
        if prev_digit && match l' with d :: _ => is_digit d | [] => false end
        then drop_underscores false l'
        else None
      else option_map (cons c) (drop_underscores (is_digit c) l')
  end.

Fixpoint span_digits (l : list ascii) : list ascii * list ascii :=
  match l with
  | c :: l' =>
      if is_digit c then let (ds, r) := span_digits l' in (c :: ds, r)
      else ([], l)
  | [] => ([], [])
  end.

Definition digits_value (ds : list ascii) : Z :=
  fold_left (fun acc c => 10 * acc + Z.of_nat (nat_of_ascii c - 48))%Z ds 0%Z.

(** Leading sign: [true] for a minus. *)
Definition take_sign (l : list ascii) : bool * list ascii :=
  match l with
  | c :: l' =>
      if Ascii.eqb c "-" then (true, l')
      else if Ascii.eqb c "+" then (false, l')
      else (false, l)
  | [] => (false, [])
  end.

Definition is_nil (A : Type) (l : list A) : bool :=
  match l with [] => true | _ => false end.

(** [m * 10^e] *)
Definition scale10 (m e : Z) : Q :=
  if (0 <=? e)%Z then inject_Z (m * 10 ^ e)
  else Qmake m (Z.to_pos (10 ^ (- e))).

(** An unsigned decimal literal: digits, an optional point and fraction
    (one digit at least on either side), an optional exponent. *)
Definition parse_decimal (l : list ascii) : option Q :=
  let (ip, r1) := span_digits l in
  let (fp, r2) :=
    match r1 with
    | c :: r => if Ascii.eqb c "." then span_digits r else ([], r1)
    | [] => ([], r1)
    end in
  if is_nil ip && is_nil fp then None
  else
    let m := digits_value (ip ++ fp) in
    let k := Z.of_nat (length fp) in
    match r2 with
    | [] => Some (scale10 m (- k))
    | c :: r3 =>
        if Ascii.eqb (lower c) "e" then
          let (neg, r4) := take_sign r3 in
          let (ed, r5) := span_digits r4 in
          if is_nil ed || negb (is_nil r5) then None
          else
            let e := digits_value ed in
            Some (scale10 m ((if neg then - e else e) - k))
        else None
    end.

Definition chars_eqb (a b : list ascii) : bool :=
  String.eqb (string_of_list_ascii a) (string_of_list_ascii b).

(** [float(s)]: [None] is [ValueError]. *)
Definition of_string (s : string) : option t :=
  match drop_underscores false (list_ascii_of_string s) with
  | None => None
  | Some l =>
      let (neg, body) := take_sign (strip l) in
      let word := map lower body in
      if chars_eqb word (list_ascii_of_string "inf")
         || chars_eqb word (list_ascii_of_string "infinity")
      then Some (if neg then NegInf else PosInf)
      else if chars_eqb word (list_ascii_of_string "nan") then Some NaN
      else
        match parse_decimal body with
        | Some q => Some (of_Q (if neg then - q else q))
        | None => None
        end
  end.

(** [sum(values)]: from the start value [0], one rounded addition per
    item, left to right (CPython before 3.12; later versions carry a
    compensation term along). *)
Definition builtin_sum (values : list t) : t := fold_left add values zero.

Definition is_finite (x : t) : bool :=
  match x with Finite _ => true | _ => false end.

(** The exact total of the values when all of them are finite. *)
Fixpoint exact_total (values : list t) : option Q :=
  match values with
  | [] => Some 0
  | Finite q :: rest => option_map (Qplus q) (exact_total rest)
  | _ :: _ => None
  end.

(** [statistics.mean] of the non-empty [v :: rest]: the values are
    added as exact fractions and the quotient by their number is
    rounded once; with an infinity or a NaN in the data, those items
    alone are added as floats. *)
Definition mean (v : t) (rest : list t) : t :=
  let data := v :: rest in
  match exact_total data with
  | Some total => round (total / inject_Z (Z.of_nat (length data)))
  | None =>
      div_count
        (fold_left add (filter (fun x => negb (is_finite x)) data) zero)
        (length data)
  end.

(** [max] of the non-empty [v :: rest]: a later item replaces the
    running one only when strictly greater. *)
Definition builtin_max (v : t) (rest : list t) : t :=
  fold_left (fun best item => if gtb item best then item else best) rest v.

(** [min] of the non-empty [v :: rest]. *)
Definition builtin_min (v : t) (rest : list t) : t :=
  fold_left (fun best item => if ltb item best then item else best) rest v.

End Float.

(* ------------------------------------------------------------------ *)
(** ** Python values: what [json.load] returns and [json.dump] takes *)

#[warnings="-register-all"]
Inductive value : Type :=
| VNone
| VBool (b : bool)
| VInt (z : Z)
| VFloat (f : Float.t)
| VStr (s : string)
| VList (l : list value)
| VDict (d : list (string * value)).

Inductive exn : Type :=
| ValueError
| TypeError
| OverflowError
| AttributeError
| KeyError.

Module Py.

Definition bind (E A B : Type) (m : result E A) (k : A -> result E B)
  : result E B :=
  match m with
  | Ok a => k a
  | Raise e => Raise e
  end.

(** [v is None] *)
Definition is_none (v : value) : bool :=
  match v with VNone => true | _ => false end.

(** [v == s] for a string [s]. *)
Definition eq_str (v : value) (s : string) : bool :=
  match v with VStr s' => String.eqb s' s | _ => false end.

(** [k in data] *)
Definition contains (k : string) (data : value) : result exn bool :=
  match data with
  | VDict d => Ok (Dict.mem k d)
  | VList l => Ok (existsb (fun x => eq_str x k) l)
  | VStr s => Ok (match String.index 0 k s with Some _ => true | None => false end)
  | _ => Raise TypeError
  end.

(** [data[k]] for a string [k], reached only after [k in data]. *)
Definition getitem (data : value) (k : string) : result exn value :=
  match data with
  | VDict d => match Dict.get k d with Some v => Ok v | None => Raise KeyError end
  | _ => Raise TypeError
  end.

(** [data.keys()] *)
Definition keys (data : value) : result exn (list string) :=
  match data with
  | VDict d => Ok (Dict.keys d)
  | _ => Raise AttributeError
  end.

(** [float(v)] *)
Definition float (v : value) : result exn Float.t :=
  match v with
  | VNone => Raise TypeError
  | VBool b => Ok (Float.Finite (if b then 1 else 0))
  | VInt z =>
      if Float.in_range (inject_Z z) then Ok (Float.round (inject_Z z))
      else Raise OverflowError
  | VFloat f => Ok f
  | VStr s =>
      match Float.of_string s with
      | Some f => Ok f
      | None => Raise ValueError
      end
  | VList _ => Raise TypeError
  | VDict _ => Raise TypeError
  end.

End Py.

Notation "x <- m ;; k" := (Py.bind m (fun x => k))
  (at level 61, m at next level, right associativity).

(* ------------------------------------------------------------------ *)
(** ** The collector *)

Module Collector.

Import Args.

(** What opening and loading one path gives. *)
Inductive file_state : Type :=
| Unreadable                (* [open] or the read raises *)
| Malformed                 (* [json.JSONDecodeError] *)
| Parsed (data : value).

(** The surroundings a run reads.  Paths are the strings [glob.glob]
    returns; [pathlib]'s rewriting of separators is not represented. *)
Record World : Type := mkWorld {
  glob : string -> list string;     (* [glob.glob(pattern, recursive=True)] *)
  is_file : string -> bool;         (* [Path.is_file] *)
  read_json : string -> file_state; (* [open] followed by [json.load] *)
  cwd : string;                     (* [Path.cwd().absolute()] *)
  script : string;                  (* [sys.argv[0]] *)
  python_version : string           (* [sys.version] *)
}.

(** The sentinel string. *)
Definition NA : value := VStr "NA".

Definition find_data_files (w : World) (pattern : string) : list string :=
  filter (is_file w) (glob w pattern).

(** The body of the [try] block, once the file is loaded. *)
Definition extract (data : value) (metric_key : string) (debug : bool)
  : result exn value :=
  has_error <- Py.contains "error" data ;;
  error_set <- (if has_error
                then e <- Py.getitem data "error" ;; Ok (negb (Py.is_none e))
                else Ok false) ;;
  if error_set then Ok NA
  else
    has_key <- Py.contains metric_key data ;;
    if has_key then Py.getitem data metric_key
    else if debug then _ <- Py.keys data ;; Ok NA
    else Ok NA.

Definition load_result_from_file (w : World) (file_path metric_key : string)
  (debug : bool) : value :=
  match read_json w file_path with
  | Unreadable => NA
  | Malformed => NA
  | Parsed data =>
      match extract data metric_key debug with
      | Ok v => v
      | Raise _ => NA
      end
  end.

Definition error_no_values : Dict.t value :=
  [("error", VStr "No valid values found")].

Definition wants (aggregation mode : string) : bool :=
  (aggregation =? "all") || (aggregation =? mode).

Definition aggregate_results (values : list Float.t) (aggregation : string)
  : Dict.t value :=
  match values with
  | [] => error_no_values
  | v :: rest =>
      let result := [] in
      let result :=
        if wants aggregation "avg"
        then Dict.set "avg" (VFloat (Float.mean v rest)) result else result in
      let result :=
        if wants aggregation "max"
        then Dict.set "max" (VFloat (Float.builtin_max v rest)) result else result in
      let result :=
        if wants aggregation "min"
        then Dict.set "min" (VFloat (Float.builtin_min v rest)) result else result in
      let result :=
        if wants aggregation "sum"
        then Dict.set "sum" (VFloat (Float.builtin_sum values)) result else result in
      let result := Dict.set "count" (VInt (Z.of_nat (length values))) result in
      Dict.set "values" (VList (map VFloat values)) result
  end.

(** What a run writes.  [cli.txt] is kept as the data its lines are
    rendered from. *)
Inductive content : Type :=
| CliDebug (script : string) (argv : list string) (args : Namespace)
    (version cwd : string)
| Json (doc : Dict.t value).

Inductive effect : Type :=
| Mkdir (dir : string)
| WriteFile (dir file : string) (c : content).

Definition save_cli_debug (w : World) (argv : list string) (args : Namespace)
  (output_dir : string) : effect :=
  WriteFile output_dir "cli.txt"
    (CliDebug (script w) argv args (python_version w) (cwd w)).

(** The two lists the extraction loop fills. *)
Record collected : Type := mkCollected {
  values : list Float.t;
  file_info : list value
}.

Definition detail_value (file_path : string) (numeric_value : Float.t) : value :=
  VDict [("file", VStr file_path); ("value", VFloat numeric_value)].

Definition detail_non_numeric (file_path : string) : value :=
  VDict [("file", VStr file_path); ("value", NA); ("error", VStr "non-numeric")].

Definition detail_na (file_path : string) : value :=
  VDict [("file", VStr file_path); ("value", NA)].

(** Body of [for file_path in data_files]. *)
Definition collect_step (w : World) (args : Namespace) (acc : collected)
  (file_path : string) : result exn collected :=
  let value := load_result_from_file w file_path (metric_key args) (debug args) in
  if negb (Py.eq_str value "NA") then
    match Py.float value with
    | Ok numeric_value =>
        Ok (mkCollected (values acc ++ [numeric_value])
              (file_info acc ++ [detail_value file_path numeric_value]))
    | Raise ValueError | Raise TypeError =>
        Ok (mkCollected (values acc)
              (file_info acc ++ [detail_non_numeric file_path]))
    | Raise e => Raise e
    end
  else
    Ok (mkCollected (values acc) (file_info acc ++ [detail_na file_path])).

Fixpoint collect (w : World) (args : Namespace) (acc : collected)
  (data_files : list string) : result exn collected :=
  match data_files with
  | [] => Ok acc
  | file_path :: rest =>
      acc' <- collect_step w args acc file_path ;;
      collect w args acc' rest
  end.

(** The file adds nothing to [values]: the extractor gives the sentinel,
    or a value the conversion rejects with one of the two caught errors. *)
Definition not_available (w : World) (args : Namespace) (file_path : string)
  : bool :=
  let value := load_result_from_file w file_path (metric_key args) (debug args) in
  Py.eq_str value "NA" ||
  match Py.float value with
  | Raise ValueError | Raise TypeError => true
  | _ => false
  end.

(** The keys the prefix leaves alone. *)
Definition unprefixed : list string :=
  ["files_details"; "input_pattern"; "metric_key"; "aggregation_type"].

(** [f"{prefix}_{key}"] *)
Definition prefixed_key (prefix key : string) : string :=
  prefix ++ "_" ++ key.

Definition add_prefix (prefix : string) (result : Dict.t value) : Dict.t value :=
  fold_left
    (fun prefixed_result kv =>
       let (key, value) := kv : string * value in
       if negb (Str.mem key unprefixed)
       then Dict.set (prefixed_key prefix key) value prefixed_result
       else Dict.set key value prefixed_result)
    result [].

(** The mapping [main] builds from the metadata and the aggregate. *)
Definition merged_result (args : Namespace) (file_info : list value)
  (aggregated : Dict.t value) : Dict.t value :=
  Dict.merge
    [("aggregation_type", VStr (aggregation args));
     ("metric_key", VStr (metric_key args));
     ("input_pattern", VStr (input_pattern args));
     ("files_processed", VInt (Z.of_nat (length file_info)));
     ("files_details", VList file_info)]
    aggregated.

Definition final_result (args : Namespace) (result : Dict.t value) : Dict.t value :=
  if Str.truthy (prefix args) then add_prefix (prefix args) result else result.

Definition no_files_result (w : World) (args : Namespace) : Dict.t value :=
  [("error", VStr ("No data files found with pattern: " ++ input_pattern args));
   ("pattern_used", VStr (input_pattern args));
   ("search_directory", VStr (cwd w))].

(** How the process ends. *)
Inductive termination : Type :=
| Returned (code : Z)          (* [sys.exit(main())] *)
| SystemExit (msg : string)    (* raised by [parse_args] *)
| Uncaught (e : exn).

Definition exit_status (t : termination) : Z :=
  match t with
  | Returned code => code
  | SystemExit _ => 1
  | Uncaught _ => 1
  end.

Record outcome : Type := mkOutcome {
  ending : termination;
  effects : list effect
}.

(** [main], on the arguments after the script name.  The output
    directory is taken to be writable. *)
Definition main (w : World) (argv : list string) : outcome :=
  match parse_args argv with
  | Raise msg => mkOutcome (SystemExit msg) []
  | Ok args =>
      let output_dir := match Args.output_dir args with Some d => d | None => "" end in
      let setup := [Mkdir output_dir; save_cli_debug w argv args output_dir] in
      let data_files := find_data_files w (input_pattern args) in
      match data_files with
      | [] =>
          mkOutcome (Returned 1)
            (setup ++ [WriteFile output_dir "metrics.json"
                         (Json (no_files_result w args))])
      | _ :: _ =>
          match collect w args (mkCollected [] []) data_files with
          | Raise e => mkOutcome (Uncaught e) setup
          | Ok c =>
              let aggregated := aggregate_results (values c) (aggregation args) in
              let result := merged_result args (file_info c) aggregated in
              mkOutcome (Returned 0)
                (setup ++ [WriteFile output_dir "metrics.json"
                             (Json (final_result args result))])
          end
      end
  end.

(** The document a run left in [metrics.json], if it wrote one. *)
Fixpoint metrics_json (effs : list effect) : option (Dict.t value) :=
  match effs with
  | [] => None
  | WriteFile _ file (Json doc) :: rest =>
      if file =? "metrics.json"
      then match metrics_json rest with Some d => Some d | None => Some doc end
      else metrics_json rest
  | _ :: rest => metrics_json rest
  end.

End Collector.

(* ------------------------------------------------------------------ *)
(** ** Vocabulary of the statements *)

Module Spec.

(** No value is given for the output directory: every [--output_dir]
    token is the last one or is directly followed by another flag. *)
Fixpoint no_output_dir_value (argv : list string) : bool :=
  match argv with
  | [] => true
  | a :: rest =>
      (if a =? "--output_dir"
       then match rest with [] => true | b :: _ => Str.startswith "--" b end
       else true)
      && no_output_dir_value rest
  end.

(** The name a key of the merged result is written under when the key
    prefix [p] is set: the four metadata keys as they are, every other
    key as [p_<key>]. *)
Definition expected_key (p key : string) : string :=
  if Str.mem key
       ["files_details"; "input_pattern"; "metric_key"; "aggregation_type"]
  then key
  else p ++ "_" ++ key.

(** No unprefixed key ends in [_<key>]: prefixing [key] cannot land on
    one of the four names that stay as they are. *)
Definition clash_free (key : string) : bool :=
  Str.mem key Collector.unprefixed ||
  forallb (fun f => negb (Str.endswith ("_" ++ key) f)) Collector.unprefixed.

Definition no_clash (keys : list string) : bool := forallb clash_free keys.

(** The metadata keys of a result, in the order [main] writes them. *)
Definition metadata_keys : list string :=
  ["aggregation_type"; "metric_key"; "input_pattern"; "files_processed";
   "files_details"].

(** The name of a key in the written document, with or without prefix. *)
Definition written_key (args : Args.Namespace) (key : string) : string :=
  if Str.truthy (Args.prefix args) then expected_key (Args.prefix args) key
  else key.

(** The statistic keys of an aggregate. *)
Definition statistic_keys : list string :=
  ["avg"; "max"; "min"; "sum"; "count"; "values"].

(** The four ways a file can fail to give a number. *)
Inductive reason : Type :=
| UnreadableOrMalformed
| UpstreamError
| MissingKey
| NonNumeric.

(** The extraction policy in its stated order: the reason a file is
    not available for, [None] when it gives a number. *)
Definition reason_of (fs : Collector.file_state) (metric_key : string)
  : option reason :=
  match fs with
  | Collector.Unreadable | Collector.Malformed => Some UnreadableOrMalformed
  | Collector.Parsed (VDict d) =>
      match Dict.get "error" d with
      | Some (VNone) | None =>
          match Dict.get metric_key d with
          | None => Some MissingKey
          | Some v =>
              match Py.float v with
              | Ok _ => None
              | Raise _ => Some NonNumeric
              end
          end
      | Some _ => Some UpstreamError
      end
  | Collector.Parsed _ => Some UnreadableOrMalformed
  end.

(** The reason tag a detail entry carries: its [error] field. *)
Definition entry_tag (entry : value) : option value :=
  match entry with
  | VDict d => Dict.get "error" d
  | _ => None
  end.

(** The total of a sequence of numbers. *)
Definition total (qs : list Q) : Q := fold_right Qplus 0 qs.

(** The arithmetic mean: the total over the number of values. *)
Definition arithmetic_mean (qs : list Q) : Q :=
  total qs / inject_Z (Z.of_nat (length qs)).

(** [q] is a double: rounding delivers [q] itself. *)
Definition is_double (q : Q) : Prop :=
  exists d, Float.round q = Float.Finite d /\ d == q.

(** Starting from [acc], every partial sum of [qs] is a double. *)
Fixpoint sums_exact (acc : Q) (qs : list Q) : Prop :=
  match qs with
  | [] => True
  | x :: rest => is_double (acc + x) /\ sums_exact (acc + x) rest
  end.

(** [m] is one of [qs] and no member of [qs] is above it. *)
Definition is_largest (m : Q) (qs : list Q) : Prop :=
  In m qs /\ forall x, In x qs -> x <= m.

(** [m] is one of [qs] and no member of [qs] is below it. *)
Definition is_smallest (m : Q) (qs : list Q) : Prop :=
  In m qs /\ forall x, In x qs -> m <= x.

(** The [error] field is absent or null. *)
Definition error_unset (d : Dict.t value) : Prop :=
  Dict.get "error" d = None \/ Dict.get "error" d = Some VNone.

(** The step records the file as not available without a tag and
    leaves [values] alone. *)
Definition recorded_na (w : Collector.World) (args : Args.Namespace)
  (acc : Collector.collected)
  (file_path : string) : Prop :=
  Collector.collect_step w args acc file_path =
  Ok (Collector.mkCollected (Collector.values acc)
        (Collector.file_info acc ++ [Collector.detail_na file_path])).

Definition out_flag : string := "--output_dir".

(** The group of [--output_dir] is absent or empty. *)
Definition out_group_empty (g : Args.groups) : Prop :=
  Dict.get out_flag g = None \/ Dict.get out_flag g = Some [].

(** What the grouping loop keeps true while no value follows
    [--output_dir] in the tokens still to read. *)
Definition group_inv (g : Args.groups) (cur : option string) (rest : list string)
  : Prop :=
  out_group_empty g /\
  NoDup (Dict.keys g) /\
  (cur = Some out_flag ->
   match rest with [] => True | b :: _ => Str.startswith "--" b = true end) /\
  no_output_dir_value rest = true.

End Spec.

(* ------------------------------------------------------------------ *)
(** ** A sample directory *)

Module Examples.

Import Collector.

Definition number (q : Q) : value := VFloat (Float.Finite q).

(** Two files with a number and one file of every kind that has none. *)
Definition files : Dict.t file_state :=
  [("data/good_a.json",
    Parsed (VDict [("result", number 10.5); ("error", VNone)]));
   ("data/good_b.json",
    Parsed (VDict [("result", VStr "15.2")]));
   ("data/bad_failed.json",
    Parsed (VDict [("result", number 2); ("error", VStr "computation failed")]));
   ("data/bad_nokey.json",
    Parsed (VDict [("other", VInt 1)]));
   ("data/bad_text.json",
    Parsed (VDict [("result", VStr "invalid"); ("error", VNone)]));
   ("data/bad_na.json",
    Parsed (VDict [("result", VStr "NA")]));
   ("data/bad_broken.json", Malformed)].

Definition bad_files : list string :=
  ["data/bad_failed.json"; "data/bad_nokey.json"; "data/bad_text.json";
   "data/bad_na.json"; "data/bad_broken.json"].

Definition world : World :=
  {| glob := fun pattern =>
       if pattern =? "data/*.json" then Dict.keys files
       else if pattern =? "data/bad_*.json" then bad_files
       else [];
     is_file := fun _ => true;
     read_json := fun path =>
       match Dict.get path files with
       | Some state => state
       | None => Unreadable
       end;
     cwd := "/work";
     script := "dummy_collector.py";
     python_version := "3.11" |}.

Definition args_out : Args.Namespace :=
  Args.set_output_dir (Some "out") Args.defaults.

(** [--aggregation avg --prefix test] *)
Definition args_test : Args.Namespace :=
  Args.set_prefix "test" (Args.set_aggregation "avg" args_out).

(** A run over the files that give no number. *)
Definition argv_bad : list string :=
  ["--output_dir"; "out"; "--input-pattern"; "data/bad_*.json"].

(** The doubles the decimal literals of [l] denote. *)
Definition doubles (l : list Q) : list Q :=
  flat_map
    (fun q => match Float.round q with Float.Finite d => [d] | _ => [] end)
    l.

(** The five numbers of the reference scenario. *)
Definition five : list Q := doubles [10.5; 15.2; 8.7; 12.1; 20.0].

(** Twice the double [2^1023]. *)
Definition huge_pair : list Q := [inject_Z (2 ^ 1023); inject_Z (2 ^ 1023)].

(** Three numbers whose sums and mean are doubles. *)
Definition exact_three : list Q := [10.5; 20; 8.5].

(** A directory whose only file holds an integer beyond every double. *)
Definition huge_world : World :=
  {| glob := fun _ => ["huge.json"];
     is_file := fun _ => true;
     read_json := fun _ => Parsed (VDict [("result", VInt (10 ^ 400))]);
     cwd := "/work";
     script := "dummy_collector.py";
     python_version := "3.11" |}.

(** A run whose pattern matches nothing. *)
Definition argv_empty : list string :=
  ["--output_dir"; "out"; "--input-pattern"; "empty/*.json"].

End Examples.

(* ------------------------------------------------------------------ *)
(** ** Vocabulary for the argument vector *)

Module Tokens.

(** A token that opens a group. *)
Definition is_flag (arg : string) : bool := Str.startswith "--" arg.

(** No token of [l] opens a group. *)
Definition all_values (l : list string) : bool :=
  forallb (fun a => negb (is_flag a)) l.

(** [rest] is empty or begins with a flag. *)
Definition at_flag (rest : list string) : bool :=
  match rest with [] => true | b :: _ => is_flag b end.

(** The flags [parse_args] has a branch for. *)
Definition known_flags : list string :=
  ["--input-pattern"; "--output_dir"; "--metric-key"; "--aggregation";
   "--debug"; "--prefix"; "--collector"; "--extra"; "--name"].

Definition unknown (item : string * list string) : bool :=
  negb (Str.mem (fst item) known_flags).

(** Every key is a flag and no value is one. *)
Definition well_formed (g : Args.groups) : bool :=
  forallb
    (fun item : string * list string =>
       is_flag (fst item) && all_values (snd item))
    g.

(** The tokens a grouping stands for: every flag followed by its
    values, the positional values bare. *)
Definition ungroup (g : Args.groups) : list string :=
  flat_map
    (fun item : string * list string =>
       if fst item =? Args.positional then snd item else fst item :: snd item)
    g.

(** The aggregation a group of [--aggregation] selects over [old]. *)
Definition pick_aggregation (vals : list string) (old : string) : string :=
  match vals with
  | v :: _ => if Str.mem v Args.aggregation_modes then v else old
  | [] => old
  end.

End Tokens.

(* ------------------------------------------------------------------ *)
(** ** Vocabulary for the written document *)

Module Details.

(** The [file] field of a detail entry. *)
Definition entry_file (entry : value) : option string :=
  match entry with
  | VDict d =>
      match Dict.get "file" d with
      | Some (VStr path) => Some path
      | _ => None
      end
  | _ => None
  end.

(** The number a detail entry holds in its [value] field, if any. *)
Definition entry_number (entry : value) : option Float.t :=
  match entry with
  | VDict d =>
      match Dict.get "value" d with
      | Some (VFloat x) => Some x
      | _ => None
      end
  | _ => None
  end.

(** The numbers of a detail list, in its order. *)
Definition numbers (entries : list value) : list Float.t :=
  flat_map
    (fun entry =>
       match entry_number entry with Some x => [x] | None => [] end)
    entries.

(** The statistic keys that depend on the mode. *)
Definition mode_keys : list string := ["avg"; "max"; "min"; "sum"].

(** The integer is beyond the range of doubles. *)
Definition too_large (z : Z) : bool := negb (Float.in_range (inject_Z z)).

End Details.

(* ------------------------------------------------------------------ *)
(** ** The test harness ([test_dummy_collector.py]) *)

Module Harness.

(** A keyword value of [run_collector_test]: a boolean, [None], or any
    other value, kept as the string [str] gives for it. *)
Inductive kwarg : Type :=
| KwBool (b : bool)
| KwNone
| KwStr (s : string).

(** [str(value)] *)
Definition str_of (value : kwarg) : string :=
  match value with
  | KwBool true => "True"
  | KwBool false => "False"
  | KwNone => "None"
  | KwStr s => s
  end.

(** [f"--{key.replace('_', '-')}"] *)
Definition flag_of (key : string) : string :=
  "--" ++ Str.replace "_"%char "-"%char key.

(** What one keyword adds to [cmd]. *)
Definition kwarg_tokens (item : string * kwarg) : list string :=
  let (key, value) := item in
  match value with
  | KwBool true => [flag_of key]
  | KwNone => []
  | _ => [flag_of key; str_of value]
  end.

(** The arguments [run_collector_test] passes after the script name;
    [pattern] is [str(input_dir / "**" / "*_data.json")] and [out] is
    [str(output_dir)]. *)
Definition collector_argv (pattern out : string)
  (kwargs : list (string * kwarg)) : list string :=
  ["--input-pattern"; pattern; "--output_dir"; out]
  ++ flat_map kwarg_tokens kwargs.

(** The group a keyword is meant to become. *)
Definition kwarg_group (item : string * kwarg) : Args.groups :=
  let (key, value) := item in
  match value with
  | KwBool true => [(flag_of key, [])]
  | KwNone => []
  | _ => [(flag_of key, [str_of value])]
  end.

Definition expected_groups (pattern out : string)
  (kwargs : list (string * kwarg)) : Args.groups :=
  ("--input-pattern", [pattern]) :: ("--output_dir", [out])
  :: flat_map kwarg_group kwargs.

(** *** [verify_output] *)

(** How a check of [verify_output] can end badly. *)
Inductive failure : Type :=
| AssertionError (msg : string)
| ZeroDivisionError        (* [sum(expected_values) / 0] *)
| EmptySequence            (* [max([])], [min([])] *)
| NotANumber               (* arithmetic on a value that is no number *)
| TooLarge.                (* an integer beyond doubles meets a float *)









Definition assert (cond : bool) (msg : string) : result failure unit :=
  if cond then Ok tt else Raise (AssertionError msg).




End Harness.

(* ================================================================== *)
(** * Properties *)

Unset Implicit Arguments.

(** ** Dictionaries *)

Module DictFacts.
Section Facts.
Variable V : Type.
Implicit Types (d : Dict.t V) (k : string) (v : V).

Lemma get_set_same k v d : Dict.get k (Dict.set k v d) = Some v.
Proof.
  induction d as [|[k' v'] d IH]; simpl.
  - now rewrite String.eqb_refl.
  - destruct (String.eqb k k') eqn:E; simpl; rewrite E; auto.
Qed.

Lemma get_set_other k k' v d :
  k <> k' -> Dict.get k' (Dict.set k v d) = Dict.get k' d.
Proof.
  intros Hne. induction d as [|[k0 v0] d IH]; simpl.
  - destruct (String.eqb_spec k' k); congruence.
  - destruct (String.eqb_spec k k0); simpl.
    + subst k0. destruct (String.eqb_spec k' k); congruence.
    + now rewrite IH.
Qed.

Lemma keys_set_in k v d :
  In k (Dict.keys d) -> Dict.keys (Dict.set k v d) = Dict.keys d.
Proof.
  induction d as [|[k0 v0] d IH]; simpl; [tauto|].
  destruct (String.eqb_spec k k0); simpl; auto.
  intros [->|H]; [congruence|]. f_equal. now apply IH.
Qed.

Lemma keys_set_new k v d :
  ~ In k (Dict.keys d) -> Dict.keys (Dict.set k v d) = Dict.keys d ++ [k].
Proof.
  induction d as [|[k0 v0] d IH]; simpl; auto.
  intros H. destruct (String.eqb_spec k k0); simpl.
  - subst. tauto.
  - f_equal. apply IH. tauto.
Qed.

Lemma NoDup_keys_set k v d :
  NoDup (Dict.keys d) -> NoDup (Dict.keys (Dict.set k v d)).
Proof.
  intros H. destruct (in_dec string_dec k (Dict.keys d)) as [Hin|Hin].
  - now rewrite keys_set_in.
  - rewrite keys_set_new by assumption.
    apply NoDup_app; auto.
    + constructor; [simpl; tauto | constructor].
    + intros x Hx [<-|[]]. tauto.
Qed.

Lemma get_In k v d : Dict.get k d = Some v -> In (k, v) d.
Proof.
  induction d as [|[k0 v0] d IH]; simpl; [discriminate|].
  destruct (String.eqb_spec k k0).
  - intros [= <-]. subst. now left.
  - intros H. right. auto.
Qed.

Lemma In_get k v d : NoDup (Dict.keys d) -> In (k, v) d -> Dict.get k d = Some v.
Proof.
  induction d as [|[k0 v0] d IH]; simpl; [tauto|].
  intros Hnd [H|H].
  - injection H as -> ->. now rewrite String.eqb_refl.
  - inversion Hnd as [|? ? Hk0 Hd]; subst.
    destruct (String.eqb_spec k k0).
    + subst. exfalso. apply Hk0. change k0 with (fst (k0, v)).
      now apply in_map.
    + auto.
Qed.

Lemma get_None_notin k d : Dict.get k d = None -> ~ In k (Dict.keys d).
Proof.
  induction d as [|[k0 v0] d IH]; simpl; [tauto|].
  destruct (String.eqb_spec k k0); [discriminate|].
  intros H [Hk|Hk]; [congruence|]. now apply IH.
Qed.

Lemma get_Some_in k v d : Dict.get k d = Some v -> In k (Dict.keys d).
Proof.
  intros H. apply get_In in H. change k with (fst (k, v)). now apply in_map.
Qed.

Lemma notin_get_None k d : ~ In k (Dict.keys d) -> Dict.get k d = None.
Proof.
  intros H. destruct (Dict.get k d) as [v|] eqn:E; [|reflexivity].
  elim H. now apply (get_Some_in k v).
Qed.

End Facts.
End DictFacts.

(* ------------------------------------------------------------------ *)
(** ** The argument parser *)

Module ArgsFacts.

Import Args Spec.

Lemma append_to_other key arg g k :
  key <> k -> Dict.get k (append_to key arg g) = Dict.get k g.
Proof.
  intros Hne. unfold append_to. destruct (Dict.get key g); auto.
  now apply DictFacts.get_set_other.
Qed.

Lemma append_to_NoDup key arg g :
  NoDup (Dict.keys g) -> NoDup (Dict.keys (append_to key arg g)).
Proof.
  intros H. unfold append_to. destruct (Dict.get key g); auto.
  now apply DictFacts.NoDup_keys_set.
Qed.

Lemma positional_group g arg :
  let g' := if Dict.mem positional g then g else Dict.set positional [] g in
  (Dict.get out_flag (append_to positional arg g') = Dict.get out_flag g) /\
  (NoDup (Dict.keys g) -> NoDup (Dict.keys (append_to positional arg g'))).
Proof.
  assert (Hne : positional <> out_flag) by discriminate.
  simpl. split.
  - rewrite append_to_other by assumption.
    destruct (Dict.mem positional g); auto.
    now apply DictFacts.get_set_other.
  - intros H. apply append_to_NoDup.
    destruct (Dict.mem positional g); auto.
    now apply DictFacts.NoDup_keys_set.
Qed.

Lemma no_value_tail a rest :
  Spec.no_output_dir_value (a :: rest) = true ->
  Spec.no_output_dir_value rest = true /\
  (a = out_flag ->
   match rest with [] => True | b :: _ => Str.startswith "--" b = true end).
Proof.
  simpl. intros H. apply andb_true_iff in H. destruct H as [H1 H2].
  split; auto. intros ->. simpl in H1. destruct rest; auto.
Qed.

Lemma group_step_inv g cur a rest :
  group_inv g cur (a :: rest) ->
  group_inv (fst (group_step (g, cur) a)) (snd (group_step (g, cur) a)) rest.
Proof.
  intros (Hg & Hnd & Hcur & Hspec).
  apply no_value_tail in Hspec. destruct Hspec as [Hrest Hnext].
  unfold group_step. destruct (Str.startswith "--" a) eqn:Hflag; cbn [fst snd].
  - repeat split; auto.
    + destruct (string_dec a out_flag) as [->|Hne].
      * right. apply DictFacts.get_set_same.
      * unfold out_group_empty.
        rewrite DictFacts.get_set_other by assumption. exact Hg.
    + now apply DictFacts.NoDup_keys_set.
    + intros [= ->]. now apply Hnext.
  - assert (Hnot : cur <> Some out_flag).
    { intros ->. specialize (Hcur eq_refl). simpl in Hcur. congruence. }
    destruct (positional_group g a) as [Hp1 Hp2].
    destruct cur as [flag|]; [destruct (Str.truthy flag)|]; cbn [fst snd].
    + repeat split; auto.
      * unfold out_group_empty. rewrite append_to_other; [exact Hg|congruence].
      * now apply append_to_NoDup.
      * intros E. now elim Hnot.
    + repeat split; auto.
      * destruct Hg as [Hg|Hg]; [left|right]; (etransitivity; [exact Hp1|exact Hg]).
      * intros E. now elim Hnot.
    + repeat split; auto.
      * destruct Hg as [Hg|Hg]; [left|right]; (etransitivity; [exact Hp1|exact Hg]).
      * discriminate.
Qed.

Lemma grouping_inv argv : forall g cur,
  group_inv g cur argv ->
  let g' := fst (fold_left group_step argv (g, cur)) in
  out_group_empty g' /\ NoDup (Dict.keys g').
Proof.
  induction argv as [|a rest IH]; intros g cur H.
  - destruct H as (Hg & Hnd & _). simpl. auto.
  - apply group_step_inv in H. cbn [fold_left].
    destruct (group_step (g, cur) a) as [g1 cur1]. now apply IH.
Qed.

(** The only assignment to [output_dir] is the one of its own flag. *)
Lemma process_flag_output_dir args flag vals :
  output_dir (process_flag args (flag, vals)) =
  if flag =? out_flag then first_opt vals else output_dir args.
Proof.
  unfold process_flag, out_flag.
  repeat match goal with
  | |- context [String.eqb flag ?s] =>
      destruct (String.eqb_spec flag s); [subst flag; simpl; try reflexivity|]
  end; try reflexivity.
  - destruct vals as [|v ?]; [reflexivity|].
    match goal with |- context [if ?b then _ else _] => destruct b end;
      reflexivity.
Qed.

Lemma items_keep_output_dir_unset items : forall args,
  output_dir args = None ->
  (forall vals, In (out_flag, vals) items -> vals = []) ->
  output_dir (fold_left process_flag items args) = None.
Proof.
  induction items as [|[flag vals] items IH]; intros args Hnone Hin;
    cbn [fold_left]; auto.
  apply IH.
  - rewrite process_flag_output_dir.
    destruct (String.eqb_spec flag out_flag) as [->|Hne]; auto.
    rewrite (Hin vals); [reflexivity|now left].
  - intros vs Hvs. apply Hin. now right.
Qed.

Lemma parse_args_requires_output_dir argv :
  Spec.no_output_dir_value argv = true ->
  parse_args argv = Raise output_dir_required.
Proof.
  intros Hspec. unfold parse_args, parse_dynamic_args.
  destruct (@grouping_inv argv [] None) as [Hg Hnd].
  { repeat split; auto.
    - now left.
    - constructor.
    - discriminate. }
  set (g := fst (fold_left group_step argv ([], None))) in *.
  assert (Hout : output_dir (fold_left process_flag g defaults) = None).
  { apply items_keep_output_dir_unset; [reflexivity|].
    intros vals Hin. apply DictFacts.In_get in Hin; [|assumption].
    destruct Hg as [Hg|Hg].
    - assert (E : Some vals = None)
        by (etransitivity; [symmetry; exact Hin|exact Hg]).
      discriminate.
    - assert (E : Some vals = Some [])
        by (etransitivity; [symmetry; exact Hin|exact Hg]).
      now injection E. }
  unfold output_dir_missing. now rewrite Hout.
Qed.

(** The grouping loop starts every occurrence of a flag from an empty
    list, whatever the flag held before. *)
Lemma group_step_resets g cur flag :
  Str.startswith "--" flag = true ->
  Dict.get flag (fst (group_step (g, cur) flag)) = Some [].
Proof.
  intros H. unfold group_step. rewrite H. simpl. apply DictFacts.get_set_same.
Qed.

(** C6, evaluated on the code: with [--extra a --extra b] the parsed
    [extra] list is [["b"]]; the value [a] of the first occurrence is
    gone, because the grouping loop restarts the flag's list at its
    second occurrence before [parse_args] ever extends [extra]. *)
Theorem extra_repeated_keeps_last_occurrence :
  parse_args ["--output_dir"; "out"; "--extra"; "a"; "--extra"; "b"]
  = Ok (set_extra ["b"] (set_output_dir (Some "out") defaults)).
Proof. reflexivity. Qed.

(** C7, evaluated on the code: the unrecognized flag [--foo-bar] is
    stored in [dynamic_args] under the token [--foo-bar] itself; the
    normalised name [foo_bar] that the loop computes is not a key. *)
Theorem unknown_flag_stored_under_raw_token :
  exists args,
    parse_args ["--output_dir"; "out"; "--foo-bar"; "x"] = Ok args /\
    flag_name "--foo-bar" = "foo_bar" /\
    Dict.get "--foo-bar" (dynamic_args args) = Some ["x"] /\
    Dict.get "foo_bar" (dynamic_args args) = None.
Proof.
  eexists. split; [reflexivity|]. repeat split.
Qed.

End ArgsFacts.

(* ------------------------------------------------------------------ *)
(** ** Numbers *)

Module FloatFacts.

Import Float.

Lemma Qltb_true a b : Qltb a b = true <-> a < b.
Proof.
  unfold Qltb. rewrite negb_true_iff, <- not_true_iff_false, Qle_bool_iff.
  split; [apply Qnot_le_lt | apply Qlt_not_le].
Qed.

Lemma Qltb_false a b : Qltb a b = false <-> b <= a.
Proof.
  unfold Qltb. rewrite negb_false_iff. apply Qle_bool_iff.
Qed.

(** Rounding sees the number, not the fraction it is written as. *)
Lemma round_Qeq a b : a == b -> round a = round b.
Proof.
  intros H. unfold round, nearest. now rewrite (Qred_complete a b H).
Qed.

Lemma exact_total_finite qs :
  exact_total (map Finite qs) = Some (Spec.total qs).
Proof.
  induction qs as [|q qs IH]; simpl; [reflexivity|]. now rewrite IH.
Qed.

(** On finite values [mean] is the exact mean, rounded once. *)
Lemma mean_finite q qs :
  mean (Finite q) (map Finite qs) = round (Spec.arithmetic_mean (q :: qs)).
Proof.
  unfold mean.
  change (Finite q :: map Finite qs) with (map Finite (q :: qs)).
  now rewrite exact_total_finite, length_map.
Qed.

(** While every partial sum is a double, the running sum is exact. *)
Lemma fold_add_exact qs : forall a a',
  a' == a ->
  Spec.sums_exact a qs ->
  exists s,
    fold_left add (map Finite qs) (Finite a') = Finite s /\
    s == a + Spec.total qs.
Proof.
  induction qs as [|x qs IH]; intros a a' Ha Hex.
  - exists a'. split; [reflexivity|]. simpl. rewrite Ha. ring.
  - destruct Hex as [(d & Hd & Ed) Hrest].
    cbn [map fold_left add].
    assert (Hr : round (a' + x) = Finite d).
    { rewrite (round_Qeq (a' + x) (a + x)); [exact Hd|]. now rewrite Ha. }
    rewrite Hr.
    destruct (IH (a + x) d Ed Hrest) as (s & Hs & Es).
    exists s. split; [exact Hs|]. rewrite Es. simpl. ring.
Qed.

Lemma builtin_sum_exact qs :
  Spec.sums_exact 0 qs ->
  exists s, builtin_sum (map Finite qs) = Finite s /\ s == Spec.total qs.
Proof.
  intros H. destruct (fold_add_exact qs 0 0 (Qeq_refl 0) H) as (s & Hs & Es).
  exists s. split; [exact Hs|]. rewrite Es. ring.
Qed.

(** The running maximum never falls below where it started, ends on a
    member of the sequence and dominates every later item. *)
Lemma max_loop qs : forall q,
  exists m,
    fold_left (fun best item => if gtb item best then item else best)
      (map Finite qs) (Finite q) = Finite m /\
    In m (q :: qs) /\ q <= m /\ forall x, In x qs -> x <= m.
Proof.
  induction qs as [|a qs IH]; intros q.
  - exists q. simpl. repeat split; auto using Qle_refl. tauto.
  - cbn [map fold_left gtb ltb].
    destruct (Qltb q a) eqn:E.
    + apply Qltb_true in E.
      destruct (IH a) as (m & Hm & Hin & Hle & Hall).
      exists m. repeat split; auto.
      * right. exact Hin.
      * apply Qlt_le_weak. eapply Qlt_le_trans; eauto.
      * intros x [<-|Hx]; auto.
    + apply Qltb_false in E.
      destruct (IH q) as (m & Hm & Hin & Hle & Hall).
      exists m. repeat split; auto.
      * destruct Hin as [<-|Hin]; [now left|right; now right].
      * intros x [<-|Hx]; auto. eapply Qle_trans; eauto.
Qed.

Lemma min_loop qs : forall q,
  exists m,
    fold_left (fun best item => if ltb item best then item else best)
      (map Finite qs) (Finite q) = Finite m /\
    In m (q :: qs) /\ m <= q /\ forall x, In x qs -> m <= x.
Proof.
  induction qs as [|a qs IH]; intros q.
  - exists q. simpl. repeat split; auto using Qle_refl. tauto.
  - cbn [map fold_left ltb].
    destruct (Qltb a q) eqn:E.
    + apply Qltb_true in E.
      destruct (IH a) as (m & Hm & Hin & Hle & Hall).
      exists m. repeat split; auto.
      * right. exact Hin.
      * apply Qlt_le_weak. eapply Qle_lt_trans; eauto.
      * intros x [<-|Hx]; auto.
    + apply Qltb_false in E.
      destruct (IH q) as (m & Hm & Hin & Hle & Hall).
      exists m. repeat split; auto.
      * destruct Hin as [<-|Hin]; [now left|right; now right].
      * intros x [<-|Hx]; auto. eapply Qle_trans; eauto.
Qed.

Lemma builtin_max_finite q qs :
  exists m, builtin_max (Finite q) (map Finite qs) = Finite m /\
            Spec.is_largest m (q :: qs).
Proof.
  destruct (max_loop qs q) as (m & Hm & Hin & Hle & Hall).
  exists m. split; [exact Hm|]. split; [exact Hin|].
  intros x [<-|Hx]; auto.
Qed.

Lemma builtin_min_finite q qs :
  exists m, builtin_min (Finite q) (map Finite qs) = Finite m /\
            Spec.is_smallest m (q :: qs).
Proof.
  destruct (min_loop qs q) as (m & Hm & Hin & Hle & Hall).
  exists m. split; [exact Hm|]. split; [exact Hin|].
  intros x [<-|Hx]; auto.
Qed.

End FloatFacts.

(* ------------------------------------------------------------------ *)
(** ** Extraction and aggregation *)

Module CollectorFacts.

Import Args Collector Spec.

Lemma extract_error_set d e metric_key debug :
  Dict.get "error" d = Some e -> e <> VNone ->
  extract (VDict d) metric_key debug = Ok NA.
Proof.
  intros He Hne. unfold extract. cbn [Py.contains Py.bind Py.getitem].
  unfold Dict.mem. rewrite He. cbn [Py.bind].
  destruct e; try reflexivity. congruence.
Qed.

Lemma extract_error_unset d metric_key debug :
  error_unset d ->
  extract (VDict d) metric_key debug =
  match Dict.get metric_key d with
  | Some v => Ok v
  | None => Ok NA
  end.
Proof.
  intros [He|He]; unfold extract; cbn [Py.contains Py.bind Py.getitem];
    unfold Dict.mem; rewrite He; cbn [Py.bind Py.is_none negb];
    destruct (Dict.get metric_key d); cbn [Py.bind Py.keys];
    try reflexivity; destruct debug; reflexivity.
Qed.

Lemma load_NA_recorded w args acc file_path :
  load_result_from_file w file_path (metric_key args) (debug args) = NA ->
  recorded_na w args acc file_path.
Proof.
  intros H. unfold recorded_na, collect_step. now rewrite H.
Qed.

Lemma error_field_load w file_path d e metric_key debug :
  read_json w file_path = Parsed (VDict d) ->
  Dict.get "error" d = Some e -> e <> VNone ->
  load_result_from_file w file_path metric_key debug = NA.
Proof.
  intros Hr He Hne. unfold load_result_from_file.
  now rewrite Hr, (extract_error_set d e metric_key debug He Hne).
Qed.

Lemma missing_key_load w file_path d metric_key debug :
  read_json w file_path = Parsed (VDict d) ->
  error_unset d -> Dict.get metric_key d = None ->
  load_result_from_file w file_path metric_key debug = NA.
Proof.
  intros Hr He Hk. unfold load_result_from_file.
  now rewrite Hr, (extract_error_unset d metric_key debug He), Hk.
Qed.

Lemma present_key_load w file_path d metric_key debug v :
  read_json w file_path = Parsed (VDict d) ->
  error_unset d -> Dict.get metric_key d = Some v ->
  load_result_from_file w file_path metric_key debug = v.
Proof.
  intros Hr He Hk. unfold load_result_from_file.
  now rewrite Hr, (extract_error_unset d metric_key debug He), Hk.
Qed.

Lemma unreadable_load w file_path metric_key debug :
  read_json w file_path = Unreadable \/ read_json w file_path = Malformed ->
  load_result_from_file w file_path metric_key debug = NA.
Proof.
  intros [H|H]; unfold load_result_from_file; now rewrite H.
Qed.

(** A loaded document that is not an object gives the sentinel: every
    path through the [try] block raises or reaches [return "NA"]. *)
Lemma non_object_load w file_path data metric_key debug :
  read_json w file_path = Parsed data ->
  (forall d, data <> VDict d) ->
  load_result_from_file w file_path metric_key debug = NA.
Proof.
  intros Hr Hd. unfold load_result_from_file, extract. rewrite Hr.
  destruct data; cbn [Py.contains Py.bind]; try reflexivity.
  - destruct (String.index 0 "error" s); cbn [Py.bind Py.getitem]; auto.
    destruct (String.index 0 metric_key s); cbn [Py.bind Py.getitem Py.keys]; auto.
    destruct debug; reflexivity.
  - destruct (existsb _ l); cbn [Py.bind Py.getitem]; auto.
    destruct (existsb _ l); cbn [Py.bind Py.getitem Py.keys]; auto.
    destruct debug; reflexivity.
  - now elim (Hd d).
Qed.

(** C1, as stated, fails in double arithmetic.  For the five doubles
    of the reference scenario the written [sum] is 66.5 although their
    exact total is not, and the written [avg] is neither their exact
    mean nor [sum] divided by the count; for twice [2^1023] the written
    [sum] is an infinity while [avg] is [2^1023]. *)
Lemma statistics_are_rounded :
  match Dict.get "avg" (aggregate_results (map Float.Finite Examples.five) "all"),
        Dict.get "sum" (aggregate_results (map Float.Finite Examples.five) "all")
  with
  | Some (VFloat (Float.Finite avg)), Some (VFloat (Float.Finite sm)) =>
      Qeq_bool sm 66.5
      && negb (Qeq_bool sm (Spec.total Examples.five))
      && negb (Qeq_bool avg (Spec.arithmetic_mean Examples.five))
      && negb (Qeq_bool avg (sm / 5))
  | _, _ => false
  end = true /\
  Dict.get "sum"
    (aggregate_results (map Float.Finite Examples.huge_pair) "all")
  = Some (VFloat Float.PosInf) /\
  Dict.get "avg"
    (aggregate_results (map Float.Finite Examples.huge_pair) "all")
  = Some (VFloat (Float.Finite (inject_Z (2 ^ 1023)))).
Proof.
  split; [|split]; vm_compute; reflexivity.
Qed.

(** C1, amended: in mode [all], a non-empty sequence of N finite
    numbers gives [count] = N, [values] = the same numbers in the same
    order, [max] and [min] = the largest and the smallest of them,
    [avg] = their exact arithmetic mean rounded to the nearest double,
    and [sum] = the numbers added from left to right in double
    arithmetic.  When every partial sum is a double, [sum] is the
    total; when the mean is a double as well, [avg] is the arithmetic
    mean and equals [sum] divided by the count. *)
Theorem aggregate_all_statistics (q : Q) (qs : list Q) :
  let numbers := q :: qs in
  let values := map Float.Finite numbers in
  exists mx mn : Q,
    aggregate_results values "all" =
      [("avg", VFloat (Float.round (Spec.arithmetic_mean numbers)));
       ("max", VFloat (Float.Finite mx));
       ("min", VFloat (Float.Finite mn));
       ("sum", VFloat (Float.builtin_sum values));
       ("count", VInt (Z.of_nat (length numbers)));
       ("values", VList (map VFloat values))] /\
    Spec.is_largest mx numbers /\
    Spec.is_smallest mn numbers /\
    (Spec.sums_exact 0 numbers ->
     exists sm,
       Float.builtin_sum values = Float.Finite sm /\
       sm == Spec.total numbers /\
       (Spec.is_double (Spec.arithmetic_mean numbers) ->
        exists avg,
          Float.round (Spec.arithmetic_mean numbers) = Float.Finite avg /\
          avg == Spec.arithmetic_mean numbers /\
          avg == sm / inject_Z (Z.of_nat (length numbers)))).
Proof.
  intros numbers vals.
  destruct (FloatFacts.builtin_max_finite q qs) as (mx & Hmx & Emx).
  destruct (FloatFacts.builtin_min_finite q qs) as (mn & Hmn & Emn).
  exists mx, mn.
  split; [|split; [exact Emx|split; [exact Emn|]]].
  - subst vals numbers. unfold aggregate_results. cbn [map].
    rewrite (FloatFacts.mean_finite q qs), Hmx, Hmn.
    cbn [length]. rewrite ?length_map. reflexivity.
  - intros Hex.
    destruct (FloatFacts.builtin_sum_exact numbers Hex) as (sm & Hsm & Esm).
    exists sm. split; [exact Hsm|]. split; [exact Esm|].
    intros (avg & Havg & Eavg). exists avg.
    split; [exact Havg|]. split; [exact Eavg|].
    rewrite Eavg, Esm. reflexivity.
Qed.

Lemma aggregate_all_statistics_witness :
  exists sm,
    Float.builtin_sum (map Float.Finite Examples.exact_three)
      = Float.Finite sm /\
    sm == Spec.total Examples.exact_three.
Proof.
  destruct (aggregate_all_statistics 10.5 [20; 8.5])
    as (mx & mn & _ & _ & _ & Hex).
  destruct Hex as (sm & Hsm & Esm & _).
  - split; [|split; [|split; [|exact I]]].
    + exists (21 # 2). split; vm_compute; reflexivity.
    + exists (61 # 2). split; vm_compute; reflexivity.
    + exists (39 # 1). split; vm_compute; reflexivity.
  - exists sm. split; [exact Hsm|exact Esm].
Defined.

(** C2: a file that parses as an object whose [error] field is not
    null makes the extractor return the sentinel, whatever the metric
    field holds, and the loop step adds nothing to [values]. *)
Theorem error_field_excludes_file w file_path d e :
  read_json w file_path = Parsed (VDict d) ->
  Dict.get "error" d = Some e ->
  e <> VNone ->
  (forall metric_key debug,
     load_result_from_file w file_path metric_key debug = NA) /\
  (forall args acc, recorded_na w args acc file_path).
Proof.
  intros Hr He Hne. split.
  - intros. now apply (error_field_load w file_path d e).
  - intros. apply load_NA_recorded.
    now apply (error_field_load w file_path d e).
Qed.

Lemma error_field_excludes_file_witness :
  (forall metric_key debug,
     load_result_from_file Examples.world "data/bad_failed.json"
       metric_key debug = NA) /\
  (forall args acc,
     recorded_na Examples.world args acc "data/bad_failed.json").
Proof.
  apply (error_field_excludes_file Examples.world "data/bad_failed.json"
           [("result", Examples.number 2);
            ("error", VStr "computation failed")]
           (VStr "computation failed")).
  - reflexivity.
  - reflexivity.
  - discriminate.
Defined.

(** C10: when the metric field of a readable object without an error
    holds the string ["NA"], the extractor's return is the sentinel
    itself; the step adds nothing to [values] and appends the untagged
    not-available entry, exactly what it does when the same path is a
    file without the metric key or with an error field. *)
Theorem NA_string_metric_is_sentinel w args acc file_path d :
  read_json w file_path = Parsed (VDict d) ->
  error_unset d ->
  Dict.get (metric_key args) d = Some (VStr "NA") ->
  load_result_from_file w file_path (metric_key args) (debug args) = NA /\
  recorded_na w args acc file_path /\
  Spec.entry_tag (detail_na file_path) = None /\
  (forall w' d',
     read_json w' file_path = Parsed (VDict d') ->
     (error_unset d' /\ Dict.get (metric_key args) d' = None) \/
     (exists e, Dict.get "error" d' = Some e /\ e <> VNone) ->
     collect_step w' args acc file_path = collect_step w args acc file_path).
Proof.
  intros Hr He Hk.
  assert (Hload : load_result_from_file w file_path (metric_key args)
                    (debug args) = NA)
    by now apply (present_key_load w file_path d).
  assert (Hrec : recorded_na w args acc file_path)
    by now apply load_NA_recorded.
  repeat split; auto.
  intros w' d' Hr' Hkind. rewrite Hrec. apply load_NA_recorded.
  destruct Hkind as [[He' Hk']|(e & He' & Hne)].
  - now apply (missing_key_load w' file_path d').
  - now apply (error_field_load w' file_path d' e).
Qed.

Lemma NA_string_metric_is_sentinel_witness :
  load_result_from_file Examples.world "data/bad_na.json" "result" false = NA /\
  recorded_na Examples.world Examples.args_out (mkCollected [] [])
    "data/bad_na.json".
Proof.
  destruct (NA_string_metric_is_sentinel Examples.world Examples.args_out
              (mkCollected [] []) "data/bad_na.json"
              [("result", VStr "NA")]) as (H1 & H2 & _).
  - reflexivity.
  - left. reflexivity.
  - reflexivity.
  - split; [exact H1|exact H2].
Defined.

(** C8, as stated, fails: the file without the metric key, the file
    with an error field and the file whose metric is the text ["NA"]
    have three different reasons, yet their detail entries carry the
    same tag, namely none. *)
Lemma reason_tags_do_not_distinguish :
  Spec.reason_of (read_json Examples.world "data/bad_nokey.json") "result"
    = Some Spec.MissingKey /\
  Spec.reason_of (read_json Examples.world "data/bad_failed.json") "result"
    = Some Spec.UpstreamError /\
  Spec.reason_of (read_json Examples.world "data/bad_na.json") "result"
    = Some Spec.NonNumeric /\
  exists c,
    collect Examples.world Examples.args_out (mkCollected [] [])
      ["data/bad_nokey.json"; "data/bad_failed.json"; "data/bad_na.json"]
      = Ok c /\
    values c = [] /\
    map Spec.entry_tag (file_info c) = [None; None; None].
Proof.
  repeat split. eexists. repeat split.
Qed.

(** C8, amended: a file without the metric key, or whose metric value
    the numeric conversion rejects, adds nothing to [values] and gets a
    detail entry with value ["NA"]; the entry carries the tag
    [non-numeric] when the extractor returned a value other than the
    string ["NA"] and the conversion raised [ValueError] or [TypeError],
    and no tag at all when the key is missing. *)
Theorem not_available_detail_entries w args acc file_path d :
  read_json w file_path = Parsed (VDict d) ->
  error_unset d ->
  (Dict.get (metric_key args) d = None ->
   recorded_na w args acc file_path) /\
  (forall v,
     Dict.get (metric_key args) d = Some v ->
     Py.eq_str v "NA" = false ->
     Py.float v = Raise ValueError \/ Py.float v = Raise TypeError ->
     collect_step w args acc file_path =
     Ok (mkCollected (values acc)
           (file_info acc ++ [detail_non_numeric file_path]))) /\
  Spec.entry_tag (detail_na file_path) = None /\
  Spec.entry_tag (detail_non_numeric file_path) = Some (VStr "non-numeric").
Proof.
  intros Hr He. repeat split.
  - intros Hk. apply load_NA_recorded.
    now apply (missing_key_load w file_path d).
  - intros v Hk Hna Hraise. unfold collect_step.
    rewrite (present_key_load w file_path d _ _ v Hr He Hk), Hna.
    cbn [negb]. destruct Hraise as [-> | ->]; reflexivity.
Qed.

Lemma not_available_detail_entries_witness :
  collect_step Examples.world Examples.args_out (mkCollected [] [])
    "data/bad_text.json" =
  Ok (mkCollected [] [detail_non_numeric "data/bad_text.json"]).
Proof.
  destruct (not_available_detail_entries Examples.world Examples.args_out
              (mkCollected [] []) "data/bad_text.json"
              [("result", VStr "invalid"); ("error", VNone)])
    as (_ & H & _).
  - reflexivity.
  - right. reflexivity.
  - apply (H (VStr "invalid")).
    + reflexivity.
    + reflexivity.
    + left. reflexivity.
Defined.

(** C9: when no value is given for the output directory, the run ends
    in [parse_args] with a non-zero status and has had no effect: no
    directory is made and neither [metrics.json] nor [cli.txt] is
    written. *)
Theorem missing_output_dir_fails_before_effects w argv :
  Spec.no_output_dir_value argv = true ->
  ending (main w argv) = SystemExit output_dir_required /\
  exit_status (ending (main w argv)) <> 0%Z /\
  effects (main w argv) = [].
Proof.
  intros H. unfold main.
  rewrite (ArgsFacts.parse_args_requires_output_dir argv H).
  repeat split. discriminate.
Qed.

Lemma missing_output_dir_fails_before_effects_witness :
  effects (main Examples.world ["--input-pattern"; "data/*.json"; "--output_dir"])
  = [].
Proof.
  apply (missing_output_dir_fails_before_effects Examples.world
           ["--input-pattern"; "data/*.json"; "--output_dir"]).
  reflexivity.
Defined.

(** *** Renaming under a prefix *)

Lemma mem_In x l : Str.mem x l = true <-> In x l.
Proof.
  unfold Str.mem. rewrite existsb_exists. split.
  - intros (y & Hy & E). apply String.eqb_eq in E. now subst.
  - intros H. exists x. split; [assumption|apply String.eqb_refl].
Qed.

Lemma distinct_NoDup l : Str.distinct l = true -> NoDup l.
Proof.
  induction l as [|x l IH]; simpl; [constructor|].
  intros H. apply andb_true_iff in H. destruct H as [Hx Hl].
  constructor; auto. intros Hin. apply mem_In in Hin.
  rewrite Hin in Hx. discriminate.
Qed.

Lemma endswith_app p t : Str.endswith t (p ++ t)%string = true.
Proof.
  induction p as [|a p IH]; simpl.
  - destruct t; simpl; [reflexivity|].
    now rewrite Ascii.eqb_refl, String.eqb_refl.
  - rewrite IH. apply orb_true_r.
Qed.

Lemma append_inj (p a b : string) : (p ++ a = p ++ b)%string -> a = b.
Proof.
  induction p as [|c p IH]; simpl; [tauto|]. intros [= H]. auto.
Qed.

Lemma expected_key_inj p k1 k2 :
  Spec.clash_free k1 = true -> Spec.clash_free k2 = true ->
  Spec.expected_key p k1 = Spec.expected_key p k2 -> k1 = k2.
Proof.
  assert (Hclash : forall f k,
             Str.mem f unprefixed = true -> Str.mem k unprefixed = false ->
             Spec.clash_free k = true -> f <> (p ++ "_" ++ k)%string).
  { intros f k Hf Hk Hc E. unfold Spec.clash_free in Hc. rewrite Hk in Hc.
    cbn [orb] in Hc. rewrite forallb_forall in Hc.
    apply mem_In in Hf. specialize (Hc f Hf).
    rewrite E, endswith_app in Hc. discriminate. }
  intros H1 H2. unfold Spec.expected_key.
  fold unprefixed.
  destruct (Str.mem k1 unprefixed) eqn:E1, (Str.mem k2 unprefixed) eqn:E2;
    intros E; auto.
  - now elim (Hclash k1 k2).
  - symmetry in E. now elim (Hclash k2 k1).
  - apply append_inj in E. now apply (append_inj "_") in E.
Qed.

Lemma NoDup_expected_keys p ks :
  NoDup ks -> Spec.no_clash ks = true ->
  NoDup (map (Spec.expected_key p) ks).
Proof.
  unfold Spec.no_clash. rewrite forallb_forall.
  induction 1 as [|x l Hx Hl IH]; intros Hc; simpl; constructor.
  - rewrite in_map_iff. intros (y & E & Hy). apply Hx.
    apply expected_key_inj in E; [now subst| |]; apply Hc; simpl; auto.
  - apply IH. intros y Hy. apply Hc. now right.
Qed.

(** One turn of the renaming loop writes under the expected key. *)
Lemma add_prefix_step p (acc : Dict.t value) k v :
  (if negb (Str.mem k unprefixed)
   then Dict.set (prefixed_key p k) v acc
   else Dict.set k v acc)
  = Dict.set (Spec.expected_key p k) v acc.
Proof.
  unfold Spec.expected_key. fold unprefixed.
  destruct (Str.mem k unprefixed); reflexivity.
Qed.

Lemma add_prefix_loop p (d : Dict.t value) : forall acc : Dict.t value,
  NoDup (Dict.keys acc ++ map (Spec.expected_key p) (Dict.keys d)) ->
  let out :=
    fold_left
      (fun prefixed_result kv =>
         let (key, value) := kv : string * value in
         if negb (Str.mem key unprefixed)
         then Dict.set (prefixed_key p key) value prefixed_result
         else Dict.set key value prefixed_result) d acc in
  Dict.keys out = Dict.keys acc ++ map (Spec.expected_key p) (Dict.keys d) /\
  (forall k v, Dict.get k acc = Some v -> Dict.get k out = Some v) /\
  (forall k v, In (k, v) d -> Dict.get (Spec.expected_key p k) out = Some v).
Proof.
  induction d as [|[k v] d IH]; intros acc Hnd.
  - cbn. rewrite app_nil_r. repeat split; auto. intros ? ? [].
  - cbn [fold_left]. rewrite add_prefix_step.
    cbn [Dict.keys map fst] in Hnd.
    assert (Hfresh : ~ In (Spec.expected_key p k) (Dict.keys acc)).
    { apply NoDup_remove_2 in Hnd. intros Hin. apply Hnd.
      apply in_or_app. now left. }
    assert (Hkeys : Dict.keys (Dict.set (Spec.expected_key p k) v acc)
                    = Dict.keys acc ++ [Spec.expected_key p k])
      by now apply DictFacts.keys_set_new.
    destruct (IH (Dict.set (Spec.expected_key p k) v acc))
      as (Hk & Hpres & Hin).
    { rewrite Hkeys, <- app_assoc. exact Hnd. }
    repeat split.
    + etransitivity; [exact Hk|]. rewrite Hkeys, <- app_assoc. reflexivity.
    + intros k0 v0 H0. apply Hpres.
      rewrite DictFacts.get_set_other; [assumption|].
      intros <-. apply Hfresh. eapply DictFacts.get_Some_in; eauto.
    + intros k0 v0 [[= <- <-]|H0].
      * apply Hpres. apply DictFacts.get_set_same.
      * now apply Hin.
Qed.

Lemma add_prefix_correct p (d : Dict.t value) :
  Str.distinct (Dict.keys d) = true ->
  Spec.no_clash (Dict.keys d) = true ->
  Dict.keys (add_prefix p d) = map (Spec.expected_key p) (Dict.keys d) /\
  forall k v, Dict.get k d = Some v ->
              Dict.get (Spec.expected_key p k) (add_prefix p d) = Some v.
Proof.
  intros Hd Hc. destruct (add_prefix_loop p d []) as (Hk & _ & Hin).
  - apply NoDup_expected_keys; [now apply distinct_NoDup|assumption].
  - split; [exact Hk|]. intros k v H. apply Hin.
    now apply DictFacts.get_In.
Qed.

(** The keys of a merged result never repeat and never clash. *)
Lemma merged_result_keys args info vals :
  let ks := Dict.keys (merged_result args info
                         (aggregate_results vals (aggregation args))) in
  Str.distinct ks = true /\ Spec.no_clash ks = true.
Proof.
  unfold merged_result, aggregate_results.
  destruct vals as [|v rest]; [split; reflexivity|].
  destruct (wants (aggregation args) "avg"),
           (wants (aggregation args) "max"),
           (wants (aggregation args) "min"),
           (wants (aggregation args) "sum"); split; reflexivity.
Qed.

(** C5: with a non-empty key prefix [P], the written mapping has, in
    the same order, the keys of the merged result with every key but
    [files_details], [input_pattern], [metric_key] and
    [aggregation_type] renamed to [P_<key>] and those four unchanged,
    and each key's value is found under its new name. *)
Theorem prefix_renames_keys args info vals :
  prefix args <> "" ->
  let result := merged_result args info
                  (aggregate_results vals (aggregation args)) in
  let out := final_result args result in
  Dict.keys out = map (Spec.expected_key (prefix args)) (Dict.keys result) /\
  forall key v,
    Dict.get key result = Some v ->
    Dict.get (Spec.expected_key (prefix args) key) out = Some v.
Proof.
  intros Hp result out. subst out. unfold final_result.
  destruct (prefix args) as [|c p] eqn:E; [congruence|]. cbn [Str.truthy].
  destruct (merged_result_keys args info vals) as [Hd Hc].
  now apply add_prefix_correct.
Qed.

Lemma prefix_renames_keys_witness :
  Dict.keys
    (final_result Examples.args_test
       (merged_result Examples.args_test []
          (aggregate_results [Float.Finite 10.5; Float.Finite 15.2]
             (aggregation Examples.args_test))))
  = ["aggregation_type"; "metric_key"; "input_pattern";
     "test_files_processed"; "files_details";
     "test_avg"; "test_count"; "test_values"].
Proof.
  apply (prefix_renames_keys Examples.args_test []
           [Float.Finite 10.5; Float.Finite 15.2]).
  discriminate.
Defined.

(** *** Whole runs *)

(** C3: when discovery finds no file, [main] returns 1 without raising
    and the run writes [metrics.json] with exactly the keys [error],
    [pattern_used] and [search_directory]; the error message ends in
    the pattern that was used. *)
Theorem no_files_outcome w argv args :
  parse_args argv = Ok args ->
  find_data_files w (input_pattern args) = [] ->
  let out := main w argv in
  ending out = Returned 1 /\
  exit_status (ending out) = 1%Z /\
  exists doc,
    metrics_json (effects out) = Some doc /\
    Dict.keys doc = ["error"; "pattern_used"; "search_directory"] /\
    Dict.get "error" doc =
      Some (VStr ("No data files found with pattern: " ++ input_pattern args)) /\
    Dict.get "pattern_used" doc = Some (VStr (input_pattern args)) /\
    Dict.get "search_directory" doc = Some (VStr (cwd w)).
Proof.
  intros Hp Hf out. subst out. unfold main. rewrite Hp, Hf.
  cbn [ending effects exit_status]. repeat split.
  exists (no_files_result w args). repeat split.
Qed.

Lemma no_files_outcome_witness :
  ending (main Examples.world Examples.argv_empty) = Returned 1.
Proof.
  apply (no_files_outcome Examples.world Examples.argv_empty
           (set_input_pattern "empty/*.json" Examples.args_out)).
  - reflexivity.
  - reflexivity.
Defined.

Lemma not_available_step w args acc file_path :
  not_available w args file_path = true ->
  exists entry,
    collect_step w args acc file_path =
    Ok (mkCollected (values acc) (file_info acc ++ [entry])).
Proof.
  unfold not_available, collect_step.
  destruct (Py.eq_str _ "NA"); cbn [negb orb].
  - intros _. eexists. reflexivity.
  - destruct (Py.float _) as [f|[]]; try discriminate;
      intros _; eexists; reflexivity.
Qed.

Lemma collect_not_available w args files : forall acc,
  forallb (not_available w args) files = true ->
  exists info,
    collect w args acc files = Ok (mkCollected (values acc) info) /\
    length info = (length (file_info acc) + length files)%nat.
Proof.
  induction files as [|f files IH]; intros acc H.
  - exists (file_info acc). destruct acc. cbn. split; [reflexivity|lia].
  - cbn [forallb] in H. apply andb_true_iff in H. destruct H as [Hf Hrest].
    destruct (not_available_step w args acc f Hf) as (entry & Hstep).
    cbn [collect]. rewrite Hstep. cbn [Py.bind].
    destruct (IH (mkCollected (values acc) (file_info acc ++ [entry])) Hrest)
      as (info & Hc & Hlen).
    exists info. split; [exact Hc|].
    cbn [file_info] in Hlen. rewrite length_app in Hlen. cbn in *. lia.
Qed.

(** C4, as stated, fails: a run over five files that all degrade to
    not-available returns 0, but its [metrics.json] holds the five
    metadata keys next to [error], not the error alone. *)
Lemma no_valid_values_document_has_metadata :
  ending (main Examples.world Examples.argv_bad) = Returned 0 /\
  metrics_json (effects (main Examples.world Examples.argv_bad)) =
    Some [("aggregation_type", VStr "all");
          ("metric_key", VStr "result");
          ("input_pattern", VStr "data/bad_*.json");
          ("files_processed", VInt 5);
          ("files_details",
           VList [detail_na "data/bad_failed.json";
                  detail_na "data/bad_nokey.json";
                  detail_non_numeric "data/bad_text.json";
                  detail_na "data/bad_na.json";
                  detail_na "data/bad_broken.json"]);
          ("error", VStr "No valid values found")] /\
  metrics_json (effects (main Examples.world Examples.argv_bad)) <>
    Some error_no_values.
Proof.
  repeat split. discriminate.
Qed.

(** C4, amended: when discovery finds files and every one of them
    degrades to not-available, [main] returns 0 and [metrics.json]
    holds the five metadata keys followed by [error] with the message
    ["No valid values found"] -- [files_processed] and [error] under
    the key prefix when one is set -- and none of the statistic keys
    [avg], [max], [min], [sum], [count], [values]. *)
Theorem no_valid_values_outcome w argv args :
  parse_args argv = Ok args ->
  find_data_files w (input_pattern args) <> [] ->
  forallb (not_available w args) (find_data_files w (input_pattern args)) = true ->
  let out := main w argv in
  ending out = Returned 0 /\
  exists doc,
    metrics_json (effects out) = Some doc /\
    Dict.keys doc =
      map (Spec.written_key args) (Spec.metadata_keys ++ ["error"]) /\
    Dict.get (Spec.written_key args "error") doc =
      Some (VStr "No valid values found") /\
    forall s, In s Spec.statistic_keys ->
              Dict.get (Spec.written_key args s) doc = None.
Proof.
  intros Hp Hne Hna out. subst out. unfold main. rewrite Hp.
  destruct (collect_not_available w args _ (mkCollected [] []) Hna)
    as (info & Hc & _).
  destruct (find_data_files w (input_pattern args)) as [|f files];
    [congruence|].
  rewrite Hc. cbn [ending effects values file_info].
  split; [reflexivity|].
  exists (final_result args (merged_result args info error_no_values)).
  split; [reflexivity|].
  unfold final_result, Spec.written_key.
  destruct (Str.truthy (prefix args)).
  - destruct (add_prefix_correct (prefix args)
                (merged_result args info error_no_values))
      as [Hk Hget]; try reflexivity.
    split; [exact Hk|]. split.
    + apply Hget. reflexivity.
    + intros s Hs. apply DictFacts.notin_get_None. rewrite Hk.
      rewrite in_map_iff. intros (y & E & Hy).
      assert (y = s).
      { apply (expected_key_inj (prefix args)); [| |exact E].
        - cbn in Hy. intuition (subst; reflexivity).
        - cbn in Hs. intuition (subst; reflexivity). }
      subst y. cbn in Hy, Hs.
      intuition (subst; discriminate).
  - split; [reflexivity|]. split; [reflexivity|].
    intros s Hs. cbn in Hs. intuition (subst; reflexivity).
Qed.

Lemma no_valid_values_outcome_witness :
  ending (main Examples.world Examples.argv_bad) = Returned 0.
Proof.
  apply (no_valid_values_outcome Examples.world Examples.argv_bad
           (set_input_pattern "data/bad_*.json" Examples.args_out)).
  - reflexivity.
  - discriminate.
  - reflexivity.
Defined.

End CollectorFacts.

(* ------------------------------------------------------------------ *)
(** ** Sample runs *)

Module SampleRuns.

Import Args Collector.

(** The reference scenario: the five doubles give count 5, maximum
    20, minimum the double of 8.7 and sum 66.5; their mean is the
    double just below the one of 13.3. *)
Example five_values_all :
  match aggregate_results (map Float.Finite Examples.five) "all" with
  | [("avg", VFloat avg); ("max", VFloat mx); ("min", VFloat mn);
     ("sum", VFloat sm); ("count", VInt n); ("values", VList vs)] =>
      Float.ltb avg (Float.round 13.3)
      && Float.ltb (Float.round 13.29999999999999) avg
      && negb (Float.ltb mx (Float.round 20)) && negb (Float.ltb (Float.round 20) mx)
      && negb (Float.ltb mn (Float.round 8.7)) && negb (Float.ltb (Float.round 8.7) mn)
      && negb (Float.ltb sm (Float.round 66.5)) && negb (Float.ltb (Float.round 66.5) sm)
      && (n =? 5)%Z && (length vs =? 5)%nat
  | _ => false
  end = true.
Proof. vm_compute. reflexivity. Qed.

(** Mode [avg] with prefix [test] over all sample files: the two good
    files count, and the statistic keys carry the prefix. *)
Example prefixed_run_keys :
  option_map (@Dict.keys value)
    (metrics_json
       (effects
          (main Examples.world
             ["--output_dir"; "out"; "--input-pattern"; "data/*.json";
              "--aggregation"; "avg"; "--prefix"; "test"])))
  = Some ["aggregation_type"; "metric_key"; "input_pattern";
          "test_files_processed"; "files_details";
          "test_avg"; "test_count"; "test_values"].
Proof. reflexivity. Qed.

(** With a NaN among the values the running comparison never replaces
    and is never replaced: the result of [max] depends on the order. *)
Example max_with_nan :
  Float.builtin_max (Float.Finite 1) [Float.NaN] = Float.Finite 1 /\
  Float.builtin_max Float.NaN [Float.Finite 1] = Float.NaN.
Proof. split; reflexivity. Qed.

(** An integer too large for a double makes [float] raise
    [OverflowError], which the loop does not catch: the run ends after
    [cli.txt] and before [metrics.json]. *)
Example huge_integer_escapes_the_loop :
  main Examples.huge_world ["--output_dir"; "out"] =
  mkOutcome (Uncaught OverflowError)
    [Mkdir "out";
     save_cli_debug Examples.huge_world ["--output_dir"; "out"]
       Examples.args_out "out"].
Proof. reflexivity. Qed.

End SampleRuns.

(* ------------------------------------------------------------------ *)
(** ** More on the argument parser *)

Module GroupingFacts.

Import Args Tokens.

(** Rewriting with [H] once the aliases of the dictionary type are
    unfolded on both sides. *)
Ltac rw H :=
  let E := fresh "E" in
  pose proof H as E; unfold groups, Dict.t in E |- *; rewrite E; clear E.

Lemma flag_truthy f : is_flag f = true -> Str.truthy f = true.
Proof. destruct f; [discriminate|reflexivity]. Qed.

Lemma flag_not_positional f : is_flag f = true -> f <> positional.
Proof. intros H ->. discriminate. Qed.

Lemma step_flag (g : groups) cur arg :
  is_flag arg = true ->
  group_step (g, cur) arg = (Dict.set arg [] g, Some arg).
Proof. intros H. unfold group_step. unfold is_flag in H. now rewrite H. Qed.

Lemma step_value (g : groups) f arg :
  is_flag f = true -> is_flag arg = false ->
  group_step (g, Some f) arg = (append_to f arg g, Some f).
Proof.
  intros Hf Ha. unfold group_step. unfold is_flag in Ha. rewrite Ha.
  now rewrite (flag_truthy f Hf).
Qed.

Lemma step_positional (g : groups) arg :
  is_flag arg = false ->
  group_step (g, None) arg =
  (append_to positional arg
     (if Dict.mem positional g then g else Dict.set positional [] g), None).
Proof. intros Ha. unfold group_step. unfold is_flag in Ha. now rewrite Ha. Qed.

(** The values after a flag extend its group and nothing else. *)
Lemma values_extend f vals : forall (g : groups) acc,
  is_flag f = true ->
  Dict.get f g = Some acc ->
  all_values vals = true ->
  exists g',
    fold_left group_step vals (g, Some f) = (g', Some f) /\
    Dict.get f g' = Some (acc ++ vals) /\
    (forall k, k <> f -> Dict.get k g' = Dict.get k g).
Proof.
  induction vals as [|a vals IH]; intros g acc Hf Hg Hv.
  - exists g. rewrite app_nil_r. auto.
  - cbn [all_values forallb] in Hv. apply andb_true_iff in Hv.
    destruct Hv as [Ha Hv]. apply negb_true_iff in Ha.
    cbn [fold_left]. rw (step_value g f a Hf Ha).
    destruct (IH (append_to f a g) (acc ++ [a]) Hf) as (g' & Hfold & Hget & Hoth).
    { unfold append_to. rewrite Hg. apply DictFacts.get_set_same. }
    { exact Hv. }
    exists g'. split; [exact Hfold|]. split.
    + rewrite Hget, <- app_assoc. reflexivity.
    + intros k Hk. rewrite (Hoth k Hk).
      now apply ArgsFacts.append_to_other.
Qed.

(** Tokens that are neither the flag [k] nor values read under it
    leave the group of [k] as it is. *)
Lemma group_untouched k rest : forall (g : groups) cur,
  is_flag k = true ->
  cur <> Some k ->
  ~ In k rest ->
  Dict.get k (fst (fold_left group_step rest (g, cur))) = Dict.get k g.
Proof.
  induction rest as [|a rest IH]; intros g cur Hk Hcur Hin; [reflexivity|].
  assert (Ha : a <> k) by (intros ->; apply Hin; now left).
  assert (Hrest : ~ In k rest) by (intros H; apply Hin; now right).
  assert (Hpos : positional <> k)
    by (intros E; now apply (flag_not_positional k Hk)).
  cbn [fold_left]. unfold group_step.
  destruct (Str.startswith "--" a) eqn:Hflag.
  - rewrite IH; auto; [|congruence].
    now apply DictFacts.get_set_other.
  - destruct (ArgsFacts.positional_group g a) as [_ _].
    assert (Hp : Dict.get k
                   (append_to positional a
                      (if Dict.mem positional g then g
                       else Dict.set positional [] g)) = Dict.get k g).
    { rewrite ArgsFacts.append_to_other by assumption.
      destruct (Dict.mem positional g); [reflexivity|].
      now apply DictFacts.get_set_other. }
    destruct cur as [f|]; [destruct (Str.truthy f)|].
    + rewrite IH; auto. apply ArgsFacts.append_to_other. congruence.
    + rewrite IH; auto.
    + rewrite IH; auto.
Qed.

(** From any state of the loop, reading a flag, its values and then
    tokens that do not name the flag again leaves the values as the
    flag's group. *)
Lemma group_after_flag f vals rest (g : groups) cur :
  is_flag f = true ->
  all_values vals = true ->
  at_flag rest = true ->
  ~ In f rest ->
  Dict.get f (fst (fold_left group_step (f :: vals ++ rest) (g, cur)))
  = Some vals.
Proof.
  intros Hf Hv Hr Hin.
  cbn [fold_left]. rw (step_flag g cur f Hf). rewrite fold_left_app.
  destruct (values_extend f vals (Dict.set f [] g) [] Hf) as (g' & Hfold & Hget & _).
  { apply DictFacts.get_set_same. }
  { exact Hv. }
  rw Hfold. cbn [app] in Hget.
  destruct rest as [|b rest]; [exact Hget|].
  cbn [at_flag] in Hr. cbn [fold_left]. rw (step_flag g' (Some f) b Hr).
  assert (Hb : b <> f) by (intros ->; apply Hin; now left).
  rewrite group_untouched; auto.
  - rewrite DictFacts.get_set_other; assumption.
  - congruence.
  - intros H. apply Hin. now right.
Qed.

(** X1: the group of a flag holds exactly the tokens between its last
    occurrence and the next flag, in order. *)
Theorem last_occurrence_gives_group pre f vals rest :
  is_flag f = true ->
  all_values vals = true ->
  at_flag rest = true ->
  ~ In f rest ->
  Dict.get f (parse_dynamic_args (pre ++ f :: vals ++ rest)) = Some vals.
Proof.
  intros Hf Hv Hr Hin. unfold parse_dynamic_args.
  rewrite fold_left_app.
  destruct (fold_left group_step pre ([], None)) as [g cur].
  now apply group_after_flag.
Qed.

Lemma last_occurrence_gives_group_witness :
  Dict.get "--extra"
    (parse_dynamic_args
       ["--extra"; "a"; "--name"; "n"; "--extra"; "b"; "c"; "--debug"])
  = Some ["b"; "c"].
Proof.
  apply (last_occurrence_gives_group
           ["--extra"; "a"; "--name"; "n"] "--extra" ["b"; "c"] ["--debug"]).
  - reflexivity.
  - reflexivity.
  - reflexivity.
  - intros [H|[]]. discriminate.
Defined.

Lemma positional_prefix pos : forall acc,
  all_values pos = true ->
  fold_left group_step pos ([(positional, acc)] : groups, None)
  = ([(positional, acc ++ pos)] : groups, None).
Proof.
  induction pos as [|a pos IH]; intros acc Hv.
  - now rewrite app_nil_r.
  - cbn [all_values forallb] in Hv. apply andb_true_iff in Hv.
    destruct Hv as [Ha Hv]. apply negb_true_iff in Ha.
    cbn [fold_left]. rw (step_positional [(positional, acc)] a Ha).
    change (Dict.mem positional [(positional, acc)]) with true.
    cbv iota. unfold append_to. cbn [Dict.get Dict.set].
    change (positional =? positional) with true. cbv iota.
    rewrite IH by assumption. now rewrite <- app_assoc.
Qed.

Lemma positional_untouched rest : forall (g : groups) f,
  is_flag f = true ->
  Dict.get positional (fst (fold_left group_step rest (g, Some f)))
  = Dict.get positional g.
Proof.
  induction rest as [|a rest IH]; intros g f Hf; [reflexivity|].
  cbn [fold_left]. destruct (is_flag a) eqn:Ha.
  - rw (step_flag g (Some f) a Ha). rewrite IH by assumption.
    apply DictFacts.get_set_other. now apply flag_not_positional.
  - rw (step_value g f a Hf Ha). rewrite IH by assumption.
    apply ArgsFacts.append_to_other. now apply flag_not_positional.
Qed.

(** X2: the tokens in front of the first flag are collected, in order,
    under [__positional__]; without such tokens the key does not exist. *)
Theorem leading_tokens_are_positional pos rest :
  all_values pos = true ->
  at_flag rest = true ->
  Dict.get positional (parse_dynamic_args (pos ++ rest)) =
  match pos with [] => None | _ :: _ => Some pos end.
Proof.
  intros Hv Hr. unfold parse_dynamic_args. rewrite fold_left_app.
  assert (Hpos : fold_left group_step pos ([], None) =
                 (match pos with [] => [] | _ :: _ => [(positional, pos)] end,
                  None)).
  { destruct pos as [|a pos]; [reflexivity|].
    cbn [all_values forallb] in Hv. apply andb_true_iff in Hv.
    destruct Hv as [Ha Hv]. apply negb_true_iff in Ha.
    cbn [fold_left]. rw (step_positional [] a Ha).
    change (fold_left group_step pos ([(positional, [] ++ [a])], None)
            = ([(positional, a :: pos)], None)).
    now rewrite positional_prefix. }
  rewrite Hpos. destruct rest as [|b rest].
  - destruct pos; reflexivity.
  - cbn [at_flag] in Hr. cbn [fold_left]. rw (step_flag (match pos with [] => [] | _ :: _ => [(positional, pos)] end) None b Hr).
    rewrite positional_untouched by assumption.
    rewrite DictFacts.get_set_other by now apply flag_not_positional.
    destruct pos; reflexivity.
Qed.

Lemma leading_tokens_are_positional_witness :
  Dict.get positional (parse_dynamic_args ["x"; "y"; "--debug"; "z"])
  = Some ["x"; "y"].
Proof.
  apply (leading_tokens_are_positional ["x"; "y"] ["--debug"; "z"]);
    reflexivity.
Defined.

End GroupingFacts.

(* ------------------------------------------------------------------ *)
(** ** From groups to settings *)

Module ParseFacts.

Import Args Tokens.

Lemma keys_set_iff (V : Type) k a (v : V) (d : Dict.t V) :
  In k (Dict.keys (Dict.set a v d)) <-> k = a \/ In k (Dict.keys d).
Proof.
  destruct (in_dec string_dec a (Dict.keys d)) as [Ha|Ha].
  - rewrite DictFacts.keys_set_in by assumption.
    split; [tauto|]. intros [->|H]; assumption.
  - rewrite DictFacts.keys_set_new by assumption.
    rewrite in_app_iff. simpl. intuition congruence.
Qed.

Lemma keys_append_to key arg (g : groups) :
  Dict.keys (append_to key arg g) = Dict.keys g.
Proof.
  unfold append_to. destruct (Dict.get key g) eqn:E; [|reflexivity].
  apply DictFacts.keys_set_in. eapply DictFacts.get_Some_in; eauto.
Qed.

Lemma step_NoDup (g : groups) cur a :
  NoDup (Dict.keys g) ->
  NoDup (Dict.keys (fst (group_step (g, cur) a))).
Proof.
  intros H.
  assert (Hp : NoDup (Dict.keys
                        (append_to positional a
                           (if Dict.mem positional g then g
                            else Dict.set positional [] g)))).
  { rewrite keys_append_to. destruct (Dict.mem positional g); auto.
    now apply DictFacts.NoDup_keys_set. }
  unfold group_step. destruct (Str.startswith "--" a); cbn [fst].
  - now apply DictFacts.NoDup_keys_set.
  - destruct cur as [f|]; [destruct (Str.truthy f)|]; cbn [fst]; auto.
    now rewrite keys_append_to.
Qed.

Lemma fold_NoDup argv : forall (g : groups) cur,
  NoDup (Dict.keys g) ->
  NoDup (Dict.keys (fst (fold_left group_step argv (g, cur)))).
Proof.
  induction argv as [|a argv IH]; intros g cur H; [exact H|].
  cbn [fold_left]. pose proof (step_NoDup g cur a H) as H1.
  destruct (group_step (g, cur) a) as [g1 cur1]. now apply IH.
Qed.

(** The keys of a grouping never repeat. *)
Lemma grouping_NoDup argv : NoDup (Dict.keys (parse_dynamic_args argv)).
Proof. apply fold_NoDup. constructor. Qed.

Lemma step_keys k (g : groups) cur a :
  is_flag k = true ->
  (In k (Dict.keys (fst (group_step (g, cur) a))) <->
   In k (Dict.keys g) \/ k = a).
Proof.
  intros Hk.
  assert (Hpos : k <> positional) by now apply GroupingFacts.flag_not_positional.
  assert (Hv : Str.startswith "--" a = false -> k <> a).
  { intros Ha ->. unfold is_flag in Hk. congruence. }
  assert (Hp : In k (Dict.keys
                       (append_to positional a
                          (if Dict.mem positional g then g
                           else Dict.set positional [] g)))
               <-> In k (Dict.keys g)).
  { rewrite keys_append_to. destruct (Dict.mem positional g); [tauto|].
    rewrite keys_set_iff. intuition congruence. }
  unfold group_step. destruct (Str.startswith "--" a) eqn:Ha; cbn [fst].
  - rewrite keys_set_iff. tauto.
  - specialize (Hv eq_refl).
    destruct cur as [f|]; [destruct (Str.truthy f)|]; cbn [fst].
    + rewrite keys_append_to. tauto.
    + split; intros H; [apply Hp in H|apply Hp]; tauto.
    + split; intros H; [apply Hp in H|apply Hp]; tauto.
Qed.

Lemma fold_keys k argv : forall (g : groups) cur,
  is_flag k = true ->
  (In k (Dict.keys (fst (fold_left group_step argv (g, cur)))) <->
   In k (Dict.keys g) \/ In k argv).
Proof.
  induction argv as [|a argv IH]; intros g cur Hk.
  - simpl. tauto.
  - cbn [fold_left]. pose proof (step_keys k g cur a Hk) as H1.
    destruct (group_step (g, cur) a) as [g1 cur1]. cbn [fst] in H1.
    rewrite IH by assumption. rewrite H1. simpl. intuition congruence.
Qed.

(** A flag is a key of the grouping exactly when it is a token. *)
Lemma flag_key_iff k argv :
  is_flag k = true ->
  (In k (Dict.keys (parse_dynamic_args argv)) <-> In k argv).
Proof.
  intros Hk. unfold parse_dynamic_args. rewrite fold_keys by assumption.
  simpl. tauto.
Qed.

Lemma absent_flag_no_group k argv :
  is_flag k = true -> ~ In k argv ->
  Dict.get k (parse_dynamic_args argv) = None.
Proof.
  intros Hk Hin. apply DictFacts.notin_get_None.
  now rewrite flag_key_iff.
Qed.

(** A setting that only the branch of [fl] assigns is decided by the
    group of [fl]. *)
Lemma fold_field (A : Type) (pr : Namespace -> A) (fl : string)
  (upd : list string -> A -> A) :
  (forall a f vs,
     pr (process_flag a (f, vs)) = if f =? fl then upd vs (pr a) else pr a) ->
  forall (g : groups) a,
    NoDup (Dict.keys g) ->
    pr (fold_left process_flag g a) =
    match Dict.get fl g with
    | Some vs => upd vs (pr a)
    | None => pr a
    end.
Proof.
  intros Hstep. induction g as [|[f vs] g IH]; intros a Hnd; [reflexivity|].
  cbn [fold_left Dict.get]. inversion Hnd as [|? ? Hf Hg]; subst.
  rewrite IH by assumption. rewrite Hstep.
  rewrite (String.eqb_sym fl f).
  destruct (String.eqb_spec f fl) as [->|Hne]; [|reflexivity].
  now rewrite (DictFacts.notin_get_None _ fl g Hf).
Qed.

Ltac field_step flag vals :=
  unfold process_flag;
  repeat match goal with
  | |- context [String.eqb flag ?s] =>
      destruct (String.eqb_spec flag s); [subst flag; simpl; try reflexivity|]
  end;
  try reflexivity;
  try (destruct vals as [|? ?]; [reflexivity|];
       match goal with |- context [if ?b then _ else _] => destruct b end;
       reflexivity).

Lemma step_input_pattern a f vs :
  input_pattern (process_flag a (f, vs)) =
  if f =? "--input-pattern" then first_or vs (input_pattern a)
  else input_pattern a.
Proof. field_step f vs. Qed.

Lemma step_metric_key a f vs :
  metric_key (process_flag a (f, vs)) =
  if f =? "--metric-key" then first_or vs (metric_key a) else metric_key a.
Proof. field_step f vs. Qed.

Lemma step_aggregation a f vs :
  aggregation (process_flag a (f, vs)) =
  if f =? "--aggregation" then pick_aggregation vs (aggregation a)
  else aggregation a.
Proof.
  field_step f vs. destruct vs as [|v vs]; [reflexivity|].
  unfold pick_aggregation, Str.mem, aggregation_modes. simpl.
  destruct (_ || _); reflexivity.
Qed.

Lemma step_debug a f vs :
  debug (process_flag a (f, vs)) =
  if f =? "--debug" then true else debug a.
Proof. field_step f vs. Qed.

Lemma step_prefix a f vs :
  prefix (process_flag a (f, vs)) =
  if f =? "--prefix" then first_or vs "" else prefix a.
Proof. field_step f vs. Qed.

Lemma step_collector a f vs :
  collector (process_flag a (f, vs)) =
  if f =? "--collector" then first_opt vs else collector a.
Proof. field_step f vs. Qed.

Lemma step_extra a f vs :
  extra (process_flag a (f, vs)) =
  if f =? "--extra" then extra a ++ vs else extra a.
Proof. field_step f vs. Qed.

Lemma step_name a f vs :
  name (process_flag a (f, vs)) =
  if f =? "--name" then first_opt vs else name a.
Proof. field_step f vs. Qed.

Lemma parse_args_Ok argv args :
  parse_args argv = Ok args ->
  args = fold_left process_flag (parse_dynamic_args argv) defaults /\
  output_dir_missing args = false.
Proof.
  unfold parse_args.
  destruct (output_dir_missing _) eqn:E; [discriminate|].
  intros [= <-]. auto.
Qed.

Lemma output_dir_of_groups argv :
  output_dir (fold_left process_flag (parse_dynamic_args argv) defaults) =
  match Dict.get "--output_dir" (parse_dynamic_args argv) with
  | Some vs => first_opt vs
  | None => None
  end.
Proof.
  apply (fold_field (option string) output_dir "--output_dir"
           (fun vs _ => first_opt vs)).
  - intros a f vs. apply ArgsFacts.process_flag_output_dir.
  - apply grouping_NoDup.
Qed.

(** X3: after a successful parse every setting is read from the group
    of its own flag and from nothing else: the first value of the
    group, or the default when the flag is absent or has no value;
    [--debug] counts by presence, [--extra] takes the whole group and
    [--aggregation] only a value among the five modes. *)
Theorem settings_follow_groups argv args :
  parse_args argv = Ok args ->
  let group := fun fl => Dict.get fl (parse_dynamic_args argv) in
  input_pattern args =
    match group "--input-pattern" with
    | Some (v :: _) => v | _ => "**/*_data.json" end /\
  output_dir args =
    match group "--output_dir" with
    | Some (v :: _) => Some v | _ => None end /\
  metric_key args =
    match group "--metric-key" with
    | Some (v :: _) => v | _ => "result" end /\
  aggregation args =
    match group "--aggregation" with
    | Some (v :: _) => if Str.mem v aggregation_modes then v else "all"
    | _ => "all" end /\
  debug args =
    match group "--debug" with Some _ => true | None => false end /\
  prefix args =
    match group "--prefix" with Some (v :: _) => v | _ => "" end /\
  collector args =
    match group "--collector" with
    | Some (v :: _) => Some v | _ => None end /\
  extra args =
    match group "--extra" with Some vs => vs | None => [] end /\
  name args =
    match group "--name" with Some (v :: _) => Some v | _ => None end.
Proof.
  intros H group. apply parse_args_Ok in H. destruct H as [-> _].
  pose proof (grouping_NoDup argv) as Hnd. subst group. cbv beta.
  repeat split.
  - rewrite (fold_field string input_pattern "--input-pattern"
               (fun vs old => first_or vs old) step_input_pattern _ _ Hnd).
    destruct (Dict.get _ _) as [[|v vs]|]; reflexivity.
  - rewrite output_dir_of_groups.
    destruct (Dict.get _ _) as [[|v vs]|]; reflexivity.
  - rewrite (fold_field string metric_key "--metric-key"
               (fun vs old => first_or vs old) step_metric_key _ _ Hnd).
    destruct (Dict.get _ _) as [[|v vs]|]; reflexivity.
  - rewrite (fold_field string aggregation "--aggregation"
               pick_aggregation step_aggregation _ _ Hnd).
    destruct (Dict.get _ _) as [[|v vs]|]; reflexivity.
  - rewrite (fold_field bool debug "--debug"
               (fun _ _ => true) step_debug _ _ Hnd).
    destruct (Dict.get _ _); reflexivity.
  - rewrite (fold_field string prefix "--prefix"
               (fun vs _ => first_or vs "") step_prefix _ _ Hnd).
    destruct (Dict.get _ _) as [[|v vs]|]; reflexivity.
  - rewrite (fold_field (option string) collector "--collector"
               (fun vs _ => first_opt vs) step_collector _ _ Hnd).
    destruct (Dict.get _ _) as [[|v vs]|]; reflexivity.
  - rewrite (fold_field (list string) extra "--extra"
               (fun vs old => old ++ vs) step_extra _ _ Hnd).
    destruct (Dict.get _ _); reflexivity.
  - rewrite (fold_field (option string) name "--name"
               (fun vs _ => first_opt vs) step_name _ _ Hnd).
    destruct (Dict.get _ _) as [[|v vs]|]; reflexivity.
Qed.

Lemma settings_follow_groups_witness :
  metric_key (set_output_dir (Some "out") defaults) =
  match
    Dict.get "--metric-key"
      (parse_dynamic_args
         ["--output_dir"; "out"; "--metric-key"; "score"; "--metric-key"])
  with
  | Some (v :: _) => v
  | _ => "result"
  end.
Proof.
  destruct (settings_follow_groups
              ["--output_dir"; "out"; "--metric-key"; "score"; "--metric-key"]
              (set_output_dir (Some "out") defaults))
    as (_ & _ & H & _).
  - reflexivity.
  - exact H.
Defined.

(** X4: a flag that does not occur among the tokens leaves its setting
    at the default, and [debug] is on exactly when [--debug] occurs. *)
Theorem absent_flags_keep_defaults argv args :
  parse_args argv = Ok args ->
  (~ In "--input-pattern" argv -> input_pattern args = "**/*_data.json") /\
  (~ In "--metric-key" argv -> metric_key args = "result") /\
  (~ In "--aggregation" argv -> aggregation args = "all") /\
  (~ In "--prefix" argv -> prefix args = "") /\
  (~ In "--collector" argv -> collector args = None) /\
  (~ In "--extra" argv -> extra args = []) /\
  (~ In "--name" argv -> name args = None) /\
  (debug args = true <-> In "--debug" argv).
Proof.
  intros H. apply parse_args_Ok in H. destruct H as [-> _].
  pose proof (grouping_NoDup argv) as Hnd.
  repeat split.
  - intros Hin.
    rewrite (fold_field string input_pattern "--input-pattern"
               (fun vs old => first_or vs old) step_input_pattern _ _ Hnd).
    now rewrite absent_flag_no_group.
  - intros Hin.
    rewrite (fold_field string metric_key "--metric-key"
               (fun vs old => first_or vs old) step_metric_key _ _ Hnd).
    now rewrite absent_flag_no_group.
  - intros Hin.
    rewrite (fold_field string aggregation "--aggregation"
               pick_aggregation step_aggregation _ _ Hnd).
    now rewrite absent_flag_no_group.
  - intros Hin.
    rewrite (fold_field string prefix "--prefix"
               (fun vs _ => first_or vs "") step_prefix _ _ Hnd).
    now rewrite absent_flag_no_group.
  - intros Hin.
    rewrite (fold_field (option string) collector "--collector"
               (fun vs _ => first_opt vs) step_collector _ _ Hnd).
    now rewrite absent_flag_no_group.
  - intros Hin.
    rewrite (fold_field (list string) extra "--extra"
               (fun vs old => old ++ vs) step_extra _ _ Hnd).
    now rewrite absent_flag_no_group.
  - intros Hin.
    rewrite (fold_field (option string) name "--name"
               (fun vs _ => first_opt vs) step_name _ _ Hnd).
    now rewrite absent_flag_no_group.
  - rewrite (fold_field bool debug "--debug"
               (fun _ _ => true) step_debug _ _ Hnd).
    destruct (Dict.get "--debug" (parse_dynamic_args argv)) eqn:E.
    + intros _. apply (flag_key_iff "--debug" argv eq_refl).
      eapply DictFacts.get_Some_in; eauto.
    + discriminate.
  - intros Hin.
    rewrite (fold_field bool debug "--debug"
               (fun _ _ => true) step_debug _ _ Hnd).
    apply (flag_key_iff "--debug" argv eq_refl) in Hin.
    destruct (Dict.get "--debug" (parse_dynamic_args argv)) eqn:E;
      [reflexivity|].
    apply DictFacts.get_None_notin in E. contradiction.
Qed.

Lemma absent_flags_keep_defaults_witness :
  debug (set_debug true (set_output_dir (Some "out") defaults)) = true <->
  In "--debug" ["--debug"; "False"; "--output_dir"; "out"].
Proof.
  apply (absent_flags_keep_defaults
           ["--debug"; "False"; "--output_dir"; "out"]
           (set_debug true (set_output_dir (Some "out") defaults))).
  reflexivity.
Defined.

(** X5: whatever the tokens are, the aggregation of a successful parse
    is one of [avg], [max], [min], [sum], [all]. *)
Theorem aggregation_always_valid argv args :
  parse_args argv = Ok args ->
  In (aggregation args) aggregation_modes.
Proof.
  intros H. apply parse_args_Ok in H. destruct H as [-> _].
  rewrite (fold_field string aggregation "--aggregation"
             pick_aggregation step_aggregation _ _ (grouping_NoDup argv)).
  assert (Hall : In "all" aggregation_modes) by (simpl; tauto).
  destruct (Dict.get _ _) as [[|v vs]|]; try exact Hall.
  unfold pick_aggregation.
  destruct (Str.mem v aggregation_modes) eqn:E; [|exact Hall].
  now apply CollectorFacts.mem_In.
Qed.

Lemma aggregation_always_valid_witness :
  In (aggregation (set_output_dir (Some "out") defaults)) aggregation_modes.
Proof.
  apply (aggregation_always_valid
           ["--aggregation"; "median"; "--output_dir"; "out"]).
  reflexivity.
Defined.

Lemma set_new (V : Type) k (v : V) (d : Dict.t V) :
  ~ In k (Dict.keys d) -> Dict.set k v d = d ++ [(k, v)].
Proof.
  induction d as [|[k0 v0] d IH]; simpl; [reflexivity|].
  intros H. destruct (String.eqb_spec k k0); [subst; tauto|].
  f_equal. apply IH. tauto.
Qed.

Lemma step_dynamic_args a f vs :
  dynamic_args (process_flag a (f, vs)) =
  if unknown (f, vs) then Dict.set f vs (dynamic_args a) else dynamic_args a.
Proof.
  unfold process_flag, unknown, Str.mem, known_flags. cbn [fst existsb].
  repeat match goal with
  | |- context [String.eqb f ?s] =>
      destruct (String.eqb_spec f s); [subst f; simpl; try reflexivity|]
  end; try reflexivity.
  destruct vs as [|v vs]; [reflexivity|].
  match goal with |- context [if ?b then _ else _] => destruct b end;
    reflexivity.
Qed.

Lemma fold_dynamic_args (g : groups) : forall a,
  NoDup (Dict.keys g) ->
  (forall k, In k (Dict.keys g) -> ~ In k (Dict.keys (dynamic_args a))) ->
  dynamic_args (fold_left process_flag g a) =
  dynamic_args a ++ filter unknown g.
Proof.
  induction g as [|[f vs] g IH]; intros a Hnd Hfresh.
  - simpl. now rewrite app_nil_r.
  - inversion Hnd as [|? ? Hf Hg]; subst. cbn [fold_left filter].
    rewrite IH; [|assumption|].
    + rewrite step_dynamic_args. destruct (unknown (f, vs)); [|reflexivity].
      rewrite set_new by (apply Hfresh; now left).
      now rewrite <- app_assoc.
    + intros k Hk. rewrite step_dynamic_args.
      destruct (unknown (f, vs)).
      * rewrite keys_set_iff. intros [->|H]; [contradiction|].
        revert H. apply Hfresh. now right.
      * apply Hfresh. now right.
Qed.

(** X6: the open-ended mapping of a successful parse is the grouping
    with the nine recognised flags taken out: every other group, the
    positional one included, is kept under its own token, with its
    values, in the order of first appearance. *)
Theorem dynamic_args_are_unknown_groups argv args :
  parse_args argv = Ok args ->
  dynamic_args args = filter unknown (parse_dynamic_args argv).
Proof.
  intros H. apply parse_args_Ok in H. destruct H as [-> _].
  rewrite fold_dynamic_args.
  - reflexivity.
  - apply grouping_NoDup.
  - intros k _ [].
Qed.

Lemma dynamic_args_are_unknown_groups_witness :
  dynamic_args
    (set_dynamic_args
       [("__positional__", ["p"]); ("--input_pattern", ["x"]);
        ("--methods.result", ["a"; "b"])]
       (set_output_dir (Some "out") defaults))
  = filter unknown
      (parse_dynamic_args
         ["p"; "--input_pattern"; "x"; "--output_dir"; "out";
          "--methods.result"; "a"; "b"]).
Proof.
  apply (dynamic_args_are_unknown_groups
           ["p"; "--input_pattern"; "x"; "--output_dir"; "out";
            "--methods.result"; "a"; "b"]).
  reflexivity.
Defined.

(** X7: when the last [--output_dir] is directly followed by a
    non-empty token that is not a flag, the parse succeeds and that
    token is the output directory, whatever stands before it. *)
Theorem output_dir_last_occurrence pre d vals rest :
  is_flag d = false ->
  d <> "" ->
  all_values vals = true ->
  at_flag rest = true ->
  ~ In "--output_dir" rest ->
  exists args,
    parse_args (pre ++ "--output_dir" :: (d :: vals) ++ rest) = Ok args /\
    output_dir args = Some d.
Proof.
  intros Hd Hne Hv Hr Hin.
  assert (Hout : output_dir
                   (fold_left process_flag
                      (parse_dynamic_args
                         (pre ++ "--output_dir" :: (d :: vals) ++ rest))
                      defaults) = Some d).
  { rewrite output_dir_of_groups.
    assert (Hgroup : Dict.get "--output_dir"
                       (parse_dynamic_args
                          (pre ++ "--output_dir" :: (d :: vals) ++ rest))
                     = Some (d :: vals)).
    { unfold parse_dynamic_args. rewrite fold_left_app.
      destruct (fold_left group_step pre ([], None)) as [g cur].
      apply GroupingFacts.group_after_flag; auto.
      cbn [all_values forallb]. rewrite Hd. exact Hv. }
    now rewrite Hgroup. }
  eexists. split; [|exact Hout].
  unfold parse_args, output_dir_missing. rewrite Hout.
  destruct d; [congruence|reflexivity].
Qed.

Lemma output_dir_last_occurrence_witness :
  exists args,
    parse_args
      (["--output_dir"; "first"] ++
       "--output_dir" :: ["second"; "ignored"] ++ ["--debug"]) = Ok args /\
    output_dir args = Some "second".
Proof.
  apply (output_dir_last_occurrence ["--output_dir"; "first"] "second"
           ["ignored"] ["--debug"]).
  - reflexivity.
  - discriminate.
  - reflexivity.
  - reflexivity.
  - intros [H|[]]. discriminate.
Defined.

End ParseFacts.

(* ------------------------------------------------------------------ *)
(** ** Grouping and its inverse *)

Module UngroupFacts.

Import Args Tokens.

Lemma ungroup_app (g1 g2 : groups) :
  ungroup (g1 ++ g2) = ungroup g1 ++ ungroup g2.
Proof. unfold ungroup. apply flat_map_app. Qed.

Lemma ungroup_flag f vs :
  is_flag f = true -> ungroup [(f, vs)] = f :: vs.
Proof.
  intros Hf. unfold ungroup. cbn [flat_map fst snd].
  destruct (String.eqb_spec f positional) as [E|_].
  - now elim (GroupingFacts.flag_not_positional f Hf).
  - now rewrite app_nil_r.
Qed.

Lemma get_app_last (V : Type) f (v : V) (d : Dict.t V) :
  ~ In f (Dict.keys d) -> Dict.get f (d ++ [(f, v)]) = Some v.
Proof.
  induction d as [|[k0 v0] d IH]; simpl; intros H.
  - now rewrite String.eqb_refl.
  - destruct (String.eqb_spec f k0); [subst; tauto|]. apply IH. tauto.
Qed.

Lemma set_app_last (V : Type) f (v v' : V) (d : Dict.t V) :
  ~ In f (Dict.keys d) ->
  Dict.set f v' (d ++ [(f, v)]) = d ++ [(f, v')].
Proof.
  induction d as [|[k0 v0] d IH]; simpl; intros H.
  - now rewrite String.eqb_refl.
  - destruct (String.eqb_spec f k0); [subst; tauto|]. f_equal. apply IH. tauto.
Qed.

Lemma append_to_last f a vs (g0 : groups) :
  ~ In f (Dict.keys g0) ->
  append_to f a (g0 ++ [(f, vs)]) = g0 ++ [(f, vs ++ [a])].
Proof.
  intros H. unfold append_to.
  rewrite (get_app_last (list string) f vs g0 H).
  now apply set_app_last.
Qed.

Lemma filter_flags_snoc p a :
  filter is_flag (p ++ [a]) =
  if is_flag a then filter is_flag p ++ [a] else filter is_flag p.
Proof.
  rewrite filter_app. cbn [filter].
  destruct (is_flag a); [reflexivity|apply app_nil_r].
Qed.

(** The state of the grouping loop after the tokens [p], when no flag
    repeats: the groups spell [p] back, their keys are the flags read,
    and the current flag owns the last group. *)
Lemma ungroup_fold argv : forall p (g : groups) cur,
  NoDup (filter is_flag (p ++ argv)) ->
  ungroup g = p ->
  (forall k, In k (Dict.keys g) -> k = positional \/ In k (filter is_flag p)) ->
  match cur with
  | None => g = [] \/ exists vs, g = [(positional, vs)]
  | Some f =>
      is_flag f = true /\
      exists g0 vs, g = g0 ++ [(f, vs)] /\ ~ In f (Dict.keys g0)
  end ->
  ungroup (fst (fold_left group_step argv (g, cur))) = p ++ argv.
Proof.
  induction argv as [|a argv IH]; intros p g cur Hnd Hun Hkeys Hcur.
  - now rewrite app_nil_r.
  - cbn [fold_left].
    replace (p ++ a :: argv) with ((p ++ [a]) ++ argv) in *
      by (rewrite <- app_assoc; reflexivity).
    assert (Hnd' : NoDup (filter is_flag (p ++ [a]))).
    { rewrite filter_app in Hnd. now apply NoDup_app_remove_r in Hnd. }
    rewrite filter_flags_snoc in Hnd'.
    destruct (is_flag a) eqn:Ha.
    + (* a new flag *)
      assert (Hfresh : ~ In a (Dict.keys g)).
      { intros Hin. destruct (Hkeys a Hin) as [E|Hp].
        - now apply (GroupingFacts.flag_not_positional a Ha).
        - apply NoDup_remove_2 in Hnd'. apply Hnd'.
          rewrite app_nil_r. exact Hp. }
      GroupingFacts.rw (GroupingFacts.step_flag g cur a Ha).
      GroupingFacts.rw (ParseFacts.set_new (list string) a [] g Hfresh).
      apply (IH (p ++ [a]) (g ++ [(a, [])]) (Some a)); auto.
      * rewrite ungroup_app, (ungroup_flag a [] Ha), Hun. reflexivity.
      * intros k Hk. unfold Dict.keys in Hk. rewrite map_app, in_app_iff in Hk.
        rewrite filter_flags_snoc, Ha, in_app_iff.
        destruct Hk as [Hk|[<-|[]]].
        -- destruct (Hkeys k Hk); tauto.
        -- right. right. now left.
      * split; [exact Ha|]. exists g, []. auto.
    + destruct cur as [f|].
      * (* a value of the current flag *)
        destruct Hcur as (Hf & g0 & vs & -> & Hg0).
        GroupingFacts.rw (GroupingFacts.step_value (g0 ++ [(f, vs)]) f a Hf Ha).
        GroupingFacts.rw (append_to_last f a vs g0 Hg0).
        apply (IH (p ++ [a]) (g0 ++ [(f, vs ++ [a])]) (Some f)); auto.
        -- rewrite ungroup_app, (ungroup_flag f (vs ++ [a]) Hf).
           rewrite ungroup_app, (ungroup_flag f vs Hf) in Hun.
           rewrite <- Hun, <- app_assoc. reflexivity.
        -- intros k Hk. rewrite filter_flags_snoc, Ha. apply Hkeys.
           unfold Dict.keys in *. rewrite map_app in *. exact Hk.
        -- split; [exact Hf|]. exists g0, (vs ++ [a]). auto.
      * (* a positional value *)
        GroupingFacts.rw (GroupingFacts.step_positional g a Ha).
        destruct Hcur as [->|(vs & ->)].
        -- apply (IH (p ++ [a]) [(positional, [a])] None); auto.
           ++ cbn in Hun. subst p. reflexivity.
           ++ intros k [<-|[]]. now left.
           ++ right. now exists [a].
        -- apply (IH (p ++ [a]) [(positional, vs ++ [a])] None); auto.
           ++ cbn in Hun. rewrite app_nil_r in Hun. subst p.
              cbn. now rewrite app_nil_r.
           ++ intros k [<-|[]]. now left.
           ++ right. now exists (vs ++ [a]).
Qed.

(** X8: when no flag occurs twice, grouping loses nothing: writing
    every group back as its flag followed by its values (positional
    values bare) gives the argument vector again. *)
Theorem ungroup_grouping argv :
  NoDup (filter is_flag argv) ->
  ungroup (parse_dynamic_args argv) = argv.
Proof.
  intros H. unfold parse_dynamic_args.
  apply (ungroup_fold argv [] [] None); auto.
Qed.

Lemma ungroup_grouping_witness :
  ungroup (parse_dynamic_args ["p"; "--a"; "x"; "y"; "--b"; "--c"; "z"])
  = ["p"; "--a"; "x"; "y"; "--b"; "--c"; "z"].
Proof.
  apply ungroup_grouping.
  repeat constructor; simpl; intuition discriminate.
Defined.

End UngroupFacts.

(* ------------------------------------------------------------------ *)
(** ** More on extraction, aggregation and runs *)

Module RunFacts.

Import Args Collector Spec Details.

(** X9: the extractor returns something other than the sentinel only
    for a file that loads as an object whose [error] is absent or null
    and that has the metric key, and then it returns the stored value
    untouched; unreadable or malformed files, documents that are not
    objects, set errors and missing keys all give ["NA"]. *)
Theorem load_value_origin w file_path metric_key debug v :
  load_result_from_file w file_path metric_key debug = v ->
  v <> NA ->
  exists d,
    read_json w file_path = Parsed (VDict d) /\
    error_unset d /\
    Dict.get metric_key d = Some v.
Proof.
  intros Hload Hv.
  destruct (read_json w file_path) as [| |data] eqn:Hr.
  - elim Hv. rewrite <- Hload.
    apply CollectorFacts.unreadable_load. now left.
  - elim Hv. rewrite <- Hload.
    apply CollectorFacts.unreadable_load. now right.
  - assert (Hobj : exists d, data = VDict d).
    { destruct data; try (elim Hv; rewrite <- Hload;
        apply (CollectorFacts.non_object_load w file_path _ _ _ Hr);
        discriminate).
      now exists d. }
    destruct Hobj as (d & ->). exists d. split; [reflexivity|].
    destruct (Dict.get "error" d) as [e|] eqn:He.
    + destruct e; try (elim Hv; rewrite <- Hload;
        apply (CollectorFacts.error_field_load w file_path d _ _ _ Hr He);
        discriminate).
      assert (Hu : error_unset d) by now right.
      split; [exact Hu|].
      destruct (Dict.get metric_key d) as [v'|] eqn:Hk.
      * rewrite (CollectorFacts.present_key_load w file_path d _ debug v' Hr Hu Hk)
          in Hload. congruence.
      * elim Hv. rewrite <- Hload.
        now apply (CollectorFacts.missing_key_load w file_path d).
    + assert (Hu : error_unset d) by now left.
      split; [exact Hu|].
      destruct (Dict.get metric_key d) as [v'|] eqn:Hk.
      * rewrite (CollectorFacts.present_key_load w file_path d _ debug v' Hr Hu Hk)
          in Hload. congruence.
      * elim Hv. rewrite <- Hload.
        now apply (CollectorFacts.missing_key_load w file_path d).
Qed.

Lemma load_value_origin_witness :
  exists d,
    read_json Examples.world "data/good_b.json" = Parsed (VDict d) /\
    error_unset d /\
    Dict.get "result" d = Some (VStr "15.2").
Proof.
  apply (load_value_origin Examples.world "data/good_b.json" "result" true
           (VStr "15.2")).
  - reflexivity.
  - discriminate.
Defined.

Lemma aggregate_shape v rest mode :
  let vals := v :: rest in
  Dict.keys (aggregate_results vals mode) =
    (if mode =? "all" then mode_keys else filter (String.eqb mode) mode_keys)
    ++ ["count"; "values"] /\
  Dict.get "count" (aggregate_results vals mode) =
    Some (VInt (Z.of_nat (length vals))) /\
  Dict.get "values" (aggregate_results vals mode) =
    Some (VList (map VFloat vals)).
Proof.
  cbv zeta. unfold aggregate_results, wants, mode_keys. cbn [filter].
  destruct (String.eqb_spec mode "all") as [->|Hall];
    [repeat split; reflexivity|].
  destruct (String.eqb_spec mode "avg") as [->|Havg];
    [repeat split; reflexivity|].
  destruct (String.eqb_spec mode "max") as [->|Hmax];
    [repeat split; reflexivity|].
  destruct (String.eqb_spec mode "min") as [->|Hmin];
    [repeat split; reflexivity|].
  destruct (String.eqb_spec mode "sum") as [->|Hsum];
    repeat split; reflexivity.
Qed.

Lemma aggregate_stats v rest mode :
  Dict.get "avg" (aggregate_results (v :: rest) mode) =
    (if wants mode "avg" then Some (VFloat (Float.mean v rest)) else None) /\
  Dict.get "max" (aggregate_results (v :: rest) mode) =
    (if wants mode "max" then Some (VFloat (Float.builtin_max v rest))
     else None) /\
  Dict.get "min" (aggregate_results (v :: rest) mode) =
    (if wants mode "min" then Some (VFloat (Float.builtin_min v rest))
     else None) /\
  Dict.get "sum" (aggregate_results (v :: rest) mode) =
    (if wants mode "sum" then Some (VFloat (Float.builtin_sum (v :: rest)))
     else None).
Proof.
  unfold aggregate_results.
  destruct (wants mode "avg"), (wants mode "max"), (wants mode "min"),
           (wants mode "sum"); repeat split; reflexivity.
Qed.

(** X10: for a non-empty sequence the aggregate always ends in [count]
    (the number of values) and [values] (the sequence itself), whatever
    the mode string is.  Before them stand all four statistics for
    [all], the one statistic named by the mode for [avg], [max], [min]
    or [sum], and nothing for any other mode; a statistic that is
    present is the mean, the maximum, the minimum or the sum of the
    sequence. *)
Theorem aggregate_keys_by_mode v rest mode :
  let vals := v :: rest in
  let result := aggregate_results vals mode in
  Dict.keys result =
    (if mode =? "all" then mode_keys else filter (String.eqb mode) mode_keys)
    ++ ["count"; "values"] /\
  Dict.get "count" result = Some (VInt (Z.of_nat (length vals))) /\
  Dict.get "values" result = Some (VList (map VFloat vals)) /\
  (forall x, Dict.get "avg" result = Some x -> x = VFloat (Float.mean v rest)) /\
  (forall x, Dict.get "max" result = Some x ->
             x = VFloat (Float.builtin_max v rest)) /\
  (forall x, Dict.get "min" result = Some x ->
             x = VFloat (Float.builtin_min v rest)) /\
  (forall x, Dict.get "sum" result = Some x ->
             x = VFloat (Float.builtin_sum vals)).
Proof.
  cbv zeta.
  destruct (aggregate_shape v rest mode) as (Hkeys & Hcount & Hvalues).
  split; [exact Hkeys|]. split; [exact Hcount|]. split; [exact Hvalues|].
  destruct (aggregate_stats v rest mode) as (Havg & Hmax & Hmin & Hsum).
  repeat split; intros x H.
  - rewrite Havg in H. destruct (wants mode "avg"); congruence.
  - rewrite Hmax in H. destruct (wants mode "max"); congruence.
  - rewrite Hmin in H. destruct (wants mode "min"); congruence.
  - rewrite Hsum in H. destruct (wants mode "sum"); congruence.
Qed.

(** What one turn of the extraction loop does to the two lists. *)
Lemma collect_step_Ok w args acc file_path acc' :
  collect_step w args acc file_path = Ok acc' ->
  exists entry,
    file_info acc' = file_info acc ++ [entry] /\
    entry_file entry = Some file_path /\
    values acc' = values acc ++ numbers [entry].
Proof.
  unfold collect_step.
  destruct (negb (Py.eq_str _ "NA")).
  - destruct (Py.float _) as [x|[]]; intros [= <-].
    + exists (detail_value file_path x). repeat split.
    + exists (detail_non_numeric file_path). cbn. now rewrite app_nil_r.
    + exists (detail_non_numeric file_path). cbn. now rewrite app_nil_r.
  - intros [= <-]. exists (detail_na file_path). cbn. now rewrite app_nil_r.
Qed.

Lemma numbers_app l1 l2 : numbers (l1 ++ l2) = numbers l1 ++ numbers l2.
Proof. unfold numbers. apply flat_map_app. Qed.

Lemma collect_Ok w args files : forall acc c,
  collect w args acc files = Ok c ->
  exists new,
    file_info c = file_info acc ++ new /\
    map entry_file new = map Some files /\
    values c = values acc ++ numbers new.
Proof.
  induction files as [|f files IH]; intros acc c H.
  - injection H as <-. exists []. now rewrite !app_nil_r.
  - cbn [collect] in H.
    destruct (collect_step w args acc f) as [acc'|e] eqn:Hs; [|discriminate].
    cbn [Py.bind] in H.
    destruct (collect_step_Ok w args acc f acc' Hs) as (entry & Hi & Hf & Hv).
    destruct (IH acc' c H) as (new & Hi' & Hf' & Hv').
    exists (entry :: new). repeat split.
    + rewrite Hi', Hi, <- app_assoc. reflexivity.
    + cbn [map]. now rewrite Hf, Hf'.
    + rewrite Hv', Hv, <- app_assoc.
      change (entry :: new) with ([entry] ++ new). now rewrite numbers_app.
Qed.

(** X11: when the extraction loop completes, the detail list has one
    entry per discovered file, in discovery order and naming that file,
    and [values] is exactly the numbers found in those entries, in the
    same order. *)
Theorem collect_accounts_for_every_file w args files c :
  collect w args (mkCollected [] []) files = Ok c ->
  map entry_file (file_info c) = map Some files /\
  length (file_info c) = length files /\
  values c = numbers (file_info c).
Proof.
  intros H. destruct (collect_Ok w args files _ c H) as (new & Hi & Hf & Hv).
  cbn in Hi, Hv. subst new. repeat split.
  - exact Hf.
  - rewrite <- (length_map entry_file), Hf. apply length_map.
  - exact Hv.
Qed.

Lemma collect_accounts_for_every_file_witness :
  length
    (file_info
       (mkCollected [Float.Finite 10.5]
          [detail_value "data/good_a.json" (Float.Finite 10.5);
           detail_na "data/bad_na.json"]))
  = length ["data/good_a.json"; "data/bad_na.json"].
Proof.
  apply (collect_accounts_for_every_file Examples.world Examples.args_out
           ["data/good_a.json"; "data/bad_na.json"]).
  reflexivity.
Defined.

Lemma collect_step_Raise w args acc file_path e :
  collect_step w args acc file_path = Raise e ->
  e = OverflowError /\
  exists z,
    load_result_from_file w file_path (metric_key args) (debug args) = VInt z /\
    too_large z = true.
Proof.
  unfold collect_step, too_large.
  destruct (negb (Py.eq_str _ "NA")); [|discriminate].
  destruct (load_result_from_file w file_path (metric_key args) (debug args))
    as [| b | z | x | s | l | d]; cbn [Py.float]; try discriminate.
  - destruct (Float.in_range (inject_Z z)) eqn:E; [discriminate|].
    intros [= <-]. split; [reflexivity|]. exists z. now rewrite E.
  - destruct (Float.of_string s); discriminate.
Qed.

Lemma collect_Raise w args files : forall acc e,
  collect w args acc files = Raise e ->
  e = OverflowError /\
  exists file_path z,
    In file_path files /\
    load_result_from_file w file_path (metric_key args) (debug args) = VInt z /\
    too_large z = true.
Proof.
  induction files as [|f files IH]; intros acc e H; [discriminate|].
  cbn [collect] in H.
  destruct (collect_step w args acc f) as [acc'|e'] eqn:Hs; cbn [Py.bind] in H.
  - destruct (IH acc' e H) as (He & p & z & Hin & Hl & Hz).
    split; [exact He|]. exists p, z. repeat split; auto. now right.
  - injection H as <-.
    destruct (collect_step_Raise w args acc f e' Hs) as (He & z & Hl & Hz).
    split; [exact He|]. exists f, z. repeat split; auto. now left.
Qed.

(** X12: a run can end in an uncaught exception in one way only: the
    exception is [OverflowError], the arguments had parsed, and the
    extractor returned for one of the discovered files an integer
    beyond the range of doubles.  Every other conversion failure is
    caught by the loop. *)
Theorem only_overflow_escapes w argv e :
  ending (main w argv) = Uncaught e ->
  e = OverflowError /\
  exists args file_path z,
    parse_args argv = Ok args /\
    In file_path (find_data_files w (input_pattern args)) /\
    load_result_from_file w file_path (metric_key args) (debug args)
      = VInt z /\
    too_large z = true.
Proof.
  unfold main.
  destruct (parse_args argv) as [args|msg] eqn:Hp; [|discriminate].
  destruct (find_data_files w (input_pattern args)) as [|f files] eqn:Hf;
    [discriminate|].
  destruct (collect w args (mkCollected [] []) (f :: files)) as [c|e'] eqn:Hc;
    [discriminate|].
  cbn [ending]. intros [= <-].
  destruct (collect_Raise w args (f :: files) _ e' Hc)
    as (He & p & z & Hin & Hl & Hz).
  split; [exact He|]. exists args, p, z. rewrite Hf.
  repeat split; assumption.
Qed.

Lemma only_overflow_escapes_witness :
  OverflowError = OverflowError /\
  exists args file_path z,
    parse_args ["--output_dir"; "out"] = Ok args /\
    In file_path (find_data_files Examples.huge_world (input_pattern args)) /\
    load_result_from_file Examples.huge_world file_path
      (metric_key args) (debug args) = VInt z /\
    too_large z = true.
Proof.
  apply (only_overflow_escapes Examples.huge_world ["--output_dir"; "out"]
           OverflowError).
  reflexivity.
Defined.

Lemma parsed_output_dir argv args :
  parse_args argv = Ok args ->
  exists d, output_dir args = Some d /\ d <> "".
Proof.
  intros H. apply ParseFacts.parse_args_Ok in H. destruct H as [_ H].
  unfold output_dir_missing in H.
  destruct (output_dir args) as [d|]; [|discriminate].
  exists d. split; [reflexivity|]. intros ->. discriminate.
Qed.

(** X13: once the arguments parse, every run first makes the output
    directory and writes [cli.txt] there.  It then either returns and
    has written [metrics.json] as its one further file -- with code 1
    when discovery found nothing and code 0 otherwise -- or it dies of
    an [OverflowError] in the extraction loop and has written nothing
    more. *)
Theorem run_shape w argv args :
  parse_args argv = Ok args ->
  exists d rest,
    output_dir args = Some d /\
    effects (main w argv) = Mkdir d :: save_cli_debug w argv args d :: rest /\
    match ending (main w argv) with
    | Returned code =>
        (exists doc, rest = [WriteFile d "metrics.json" (Json doc)]) /\
        ((code = 1%Z /\ find_data_files w (input_pattern args) = []) \/
         (code = 0%Z /\ find_data_files w (input_pattern args) <> []))
    | Uncaught e =>
        e = OverflowError /\ rest = [] /\
        find_data_files w (input_pattern args) <> []
    | SystemExit _ => False
    end.
Proof.
  intros H. destruct (parsed_output_dir argv args H) as (d & Hd & _).
  unfold main. rewrite H, Hd.
  destruct (find_data_files w (input_pattern args)) as [|f files] eqn:Hf.
  - exists d. eexists. split; [reflexivity|]. split; [reflexivity|].
    cbn [ending]. split; [eexists; reflexivity|]. left. split; reflexivity.
  - destruct (collect w args (mkCollected [] []) (f :: files)) as [c|e] eqn:Hc.
    + exists d. eexists. split; [reflexivity|]. split; [reflexivity|].
      cbn [ending]. split; [eexists; reflexivity|].
      right. split; [reflexivity|discriminate].
    + exists d, []. split; [reflexivity|]. split; [reflexivity|].
      cbn [ending]. apply collect_Raise in Hc. destruct Hc as [-> _].
      repeat split. discriminate.
Qed.

Lemma run_shape_witness :
  exists d rest,
    output_dir Examples.args_out = Some d /\
    effects (main Examples.huge_world ["--output_dir"; "out"]) =
      Mkdir d
      :: save_cli_debug Examples.huge_world ["--output_dir"; "out"]
           Examples.args_out d
      :: rest /\
    match ending (main Examples.huge_world ["--output_dir"; "out"]) with
    | Returned code =>
        (exists doc, rest = [WriteFile d "metrics.json" (Json doc)]) /\
        ((code = 1%Z /\
          find_data_files Examples.huge_world
            (input_pattern Examples.args_out) = []) \/
         (code = 0%Z /\
          find_data_files Examples.huge_world
            (input_pattern Examples.args_out) <> []))
    | Uncaught e =>
        e = OverflowError /\ rest = [] /\
        find_data_files Examples.huge_world
          (input_pattern Examples.args_out) <> []
    | SystemExit _ => False
    end.
Proof.
  apply (run_shape Examples.huge_world ["--output_dir"; "out"]
           Examples.args_out).
  reflexivity.
Defined.

Lemma get_merge (V : Type) k (d2 : Dict.t V) : forall d1 : Dict.t V,
  NoDup (Dict.keys d2) ->
  Dict.get k (Dict.merge d1 d2) =
  match Dict.get k d2 with
  | Some v => Some v
  | None => Dict.get k d1
  end.
Proof.
  unfold Dict.merge.
  induction d2 as [|[k0 v0] d2 IH]; intros d1 Hnd; [reflexivity|].
  inversion Hnd as [|? ? Hk Hd]; subst. cbn [fold_left fst snd Dict.get].
  rewrite IH by assumption.
  destruct (String.eqb_spec k k0) as [->|Hne].
  - rewrite (DictFacts.notin_get_None V k0 d2 Hk).
    apply DictFacts.get_set_same.
  - destruct (Dict.get k d2); [reflexivity|].
    apply DictFacts.get_set_other. congruence.
Qed.

Lemma aggregate_NoDup vals mode :
  NoDup (Dict.keys (aggregate_results vals mode)).
Proof.
  apply CollectorFacts.distinct_NoDup.
  unfold aggregate_results. destruct vals as [|v rest]; [reflexivity|].
  destruct (wants mode "avg"), (wants mode "max"), (wants mode "min"),
           (wants mode "sum"); reflexivity.
Qed.

Lemma aggregate_no_metadata vals mode k :
  In k metadata_keys -> Dict.get k (aggregate_results vals mode) = None.
Proof.
  intros Hk. unfold aggregate_results.
  destruct vals as [|v rest].
  - cbn in Hk. intuition (subst; reflexivity).
  - destruct (wants mode "avg"), (wants mode "max"), (wants mode "min"),
             (wants mode "sum");
      cbn in Hk; intuition (subst; reflexivity).
Qed.

(** Where a key of the merged result ends up in the written document. *)
Lemma written_lookup args info vals k v :
  Dict.get k (merged_result args info
                (aggregate_results vals (aggregation args))) = Some v ->
  Dict.get (written_key args k)
    (final_result args
       (merged_result args info
          (aggregate_results vals (aggregation args)))) = Some v.
Proof.
  intros H. unfold final_result, written_key.
  destruct (Str.truthy (prefix args)); [|exact H].
  destruct (CollectorFacts.merged_result_keys args info vals) as [Hd Hc].
  now apply (CollectorFacts.add_prefix_correct (prefix args) _ Hd Hc).
Qed.

(** X14: the document of a run that went through the extraction loop
    reports under [files_processed] the number of discovered files,
    numeric or not, and under [files_details] one entry per discovered
    file naming it in order; when at least one number was found,
    [count] is the number of entries that hold a number.  Keys are
    those of the merged result under the configured prefix. *)
Theorem completed_run_accounting w argv args c :
  parse_args argv = Ok args ->
  find_data_files w (input_pattern args) <> [] ->
  collect w args (mkCollected [] [])
    (find_data_files w (input_pattern args)) = Ok c ->
  exists doc,
    metrics_json (effects (main w argv)) = Some doc /\
    Dict.get (written_key args "files_processed") doc =
      Some (VInt (Z.of_nat
                    (length (find_data_files w (input_pattern args))))) /\
    Dict.get "files_details" doc = Some (VList (file_info c)) /\
    map entry_file (file_info c) =
      map Some (find_data_files w (input_pattern args)) /\
    (values c <> [] ->
     Dict.get (written_key args "count") doc =
       Some (VInt (Z.of_nat (length (numbers (file_info c)))))).
Proof.
  intros Hp Hne Hc.
  destruct (collect_Ok w args _ _ c Hc) as (new & Hi & Hf & Hv).
  cbn in Hi, Hv. subst new.
  assert (Hlen : length (file_info c) =
                 length (find_data_files w (input_pattern args))).
  { rewrite <- (length_map entry_file), Hf. apply length_map. }
  exists (final_result args
            (merged_result args (file_info c)
               (aggregate_results (values c) (aggregation args)))).
  split; [|split; [|split; [|split]]].
  - unfold main. rewrite Hp.
    destruct (find_data_files w (input_pattern args)); [congruence|].
    rewrite Hc. reflexivity.
  - apply written_lookup. unfold merged_result.
    rewrite get_merge by apply aggregate_NoDup.
    rewrite aggregate_no_metadata by (cbn; tauto).
    cbn. now rewrite Hlen.
  - assert (E : written_key args "files_details" = "files_details")
      by (unfold written_key; destruct (Str.truthy _); reflexivity).
    pose proof (written_lookup args (file_info c) (values c)
                  "files_details" (VList (file_info c))) as L.
    rewrite E in L. apply L. unfold merged_result.
    rewrite get_merge by apply aggregate_NoDup.
    rewrite aggregate_no_metadata by (cbn; tauto).
    reflexivity.
  - exact Hf.
  - intros Hvals. apply written_lookup. unfold merged_result.
    rewrite get_merge by apply aggregate_NoDup.
    destruct (values c) as [|v rest] eqn:E; [congruence|].
    destruct (aggregate_shape v rest (aggregation args)) as (_ & Hcount & _).
    rewrite Hcount. now rewrite <- Hv.
Qed.

Lemma completed_run_accounting_witness :
  exists doc,
    metrics_json (effects (main Examples.world Examples.argv_bad)) = Some doc /\
    Dict.get "files_processed" doc = Some (VInt 5).
Proof.
  destruct (completed_run_accounting Examples.world Examples.argv_bad
              (set_input_pattern "data/bad_*.json" Examples.args_out)
              (mkCollected []
                 [detail_na "data/bad_failed.json";
                  detail_na "data/bad_nokey.json";
                  detail_non_numeric "data/bad_text.json";
                  detail_na "data/bad_na.json";
                  detail_na "data/bad_broken.json"]))
    as (doc & H1 & H2 & _).
  - reflexivity.
  - discriminate.
  - reflexivity.
  - exists doc. split; [exact H1|exact H2].
Defined.

End RunFacts.

(* ------------------------------------------------------------------ *)
(** ** Grouping what was written out from groups *)

Module RegroupFacts.

Import Args Tokens.

Lemma values_fill f vs : forall (g0 : groups) acc,
  is_flag f = true ->
  all_values vs = true ->
  ~ In f (Dict.keys g0) ->
  fold_left group_step vs (g0 ++ [(f, acc)], Some f)
  = (g0 ++ [(f, acc ++ vs)], Some f).
Proof.
  induction vs as [|a vs IH]; intros g0 acc Hf Hv Hg0.
  - now rewrite app_nil_r.
  - cbn [all_values forallb] in Hv. apply andb_true_iff in Hv.
    destruct Hv as [Ha Hv]. apply negb_true_iff in Ha.
    cbn [fold_left].
    GroupingFacts.rw (GroupingFacts.step_value (g0 ++ [(f, acc)]) f a Hf Ha).
    GroupingFacts.rw (UngroupFacts.append_to_last f a acc g0 Hg0).
    pose proof (IH g0 (acc ++ [a]) Hf Hv Hg0) as E.
    unfold groups, Dict.t in E |- *. rewrite E.
    now rewrite <- app_assoc.
Qed.

Lemma regroup (gs : groups) : forall (g0 : groups) cur,
  well_formed gs = true ->
  NoDup (Dict.keys g0 ++ Dict.keys gs) ->
  fst (fold_left group_step (ungroup gs) (g0, cur)) = g0 ++ gs.
Proof.
  induction gs as [|[f vs] gs IH]; intros g0 cur Hwf Hnd.
  - cbn. now rewrite app_nil_r.
  - cbn [well_formed forallb fst snd] in Hwf.
    apply andb_true_iff in Hwf. destruct Hwf as [Hfv Hwf].
    apply andb_true_iff in Hfv. destruct Hfv as [Hf Hv].
    assert (Hfresh : ~ In f (Dict.keys g0)).
    { cbn [Dict.keys map fst] in Hnd. apply NoDup_remove_2 in Hnd.
      intros H. apply Hnd. apply in_or_app. now left. }
    change ((f, vs) :: gs) with ([(f, vs)] ++ gs).
    rewrite UngroupFacts.ungroup_app, (UngroupFacts.ungroup_flag f vs Hf).
    cbn [app fold_left]. rewrite fold_left_app.
    GroupingFacts.rw (GroupingFacts.step_flag g0 cur f Hf).
    GroupingFacts.rw (ParseFacts.set_new (list string) f [] g0 Hfresh).
    pose proof (values_fill f vs g0 [] Hf Hv Hfresh) as E.
    unfold groups, Dict.t in E |- *. rewrite E. cbn [app].
    pose proof (IH (g0 ++ [(f, vs)]) (Some f) Hwf) as E'.
    unfold groups, Dict.t in E' |- *. rewrite E'.
    + now rewrite <- app_assoc.
    + unfold Dict.keys in *. rewrite map_app, <- app_assoc. exact Hnd.
Qed.

(** X15: a grouping whose keys are distinct flags and whose values are
    not flags is recovered from its tokens: grouping the flags, each
    followed by its values, gives the same groups in the same order. *)
Theorem grouping_of_ungrouped (gs : groups) :
  well_formed gs = true ->
  NoDup (Dict.keys gs) ->
  parse_dynamic_args (ungroup gs) = gs.
Proof.
  intros Hwf Hnd. unfold parse_dynamic_args.
  exact (regroup gs [] None Hwf Hnd).
Qed.

Lemma grouping_of_ungrouped_witness :
  parse_dynamic_args
    (ungroup [("--a", ["x"; "y"]); ("--b", []); ("--c", ["z"])])
  = [("--a", ["x"; "y"]); ("--b", []); ("--c", ["z"])].
Proof.
  apply grouping_of_ungrouped.
  - reflexivity.
  - repeat constructor; simpl; intuition discriminate.
Defined.

End RegroupFacts.

(* ------------------------------------------------------------------ *)
(** ** The harness and the parser *)

Module HarnessFacts.

Import Args Tokens Harness.

Lemma flag_of_is_flag key : is_flag (flag_of key) = true.
Proof.
  unfold is_flag, Str.startswith, flag_of. simpl.
  destruct (Str.replace _ _ key); reflexivity.
Qed.

Lemma ungroup_kwargs kwargs :
  ungroup (flat_map kwarg_group kwargs) = flat_map kwarg_tokens kwargs.
Proof.
  induction kwargs as [|[key value] kwargs IH]; [reflexivity|].
  cbn [flat_map]. rewrite UngroupFacts.ungroup_app, IH. f_equal.
  destruct value as [[|]| |s]; cbn [kwarg_group kwarg_tokens];
    try reflexivity;
    now rewrite (UngroupFacts.ungroup_flag _ _ (flag_of_is_flag key)).
Qed.

Lemma collector_argv_ungroup pattern out kwargs :
  collector_argv pattern out kwargs =
  ungroup (expected_groups pattern out kwargs).
Proof.
  unfold collector_argv, expected_groups.
  change (("--input-pattern", [pattern]) :: ("--output_dir", [out])
          :: flat_map kwarg_group kwargs)
    with ([("--input-pattern", [pattern]); ("--output_dir", [out])]
          ++ flat_map kwarg_group kwargs).
  rewrite UngroupFacts.ungroup_app, ungroup_kwargs. reflexivity.
Qed.

Lemma kwarg_in_groups key value kwargs pattern out :
  In (key, value) kwargs ->
  forall item, In item (kwarg_group (key, value)) ->
  In item (expected_groups pattern out kwargs).
Proof.
  intros Hin item Hitem. unfold expected_groups. right. right.
  apply in_flat_map. now exists (key, value).
Qed.

(** X16: the arguments [run_collector_test] builds reach the collector
    as intended whenever no value looks like a flag and no flag is
    built twice: the parse succeeds, the pattern and the output
    directory are the ones passed, and the keywords [metric_key],
    [prefix], [collector] and a valid [aggregation] become the settings
    of the same name.  The keyword [debug] turns debugging on for
    either boolean, [False] included. *)
Theorem harness_settings pattern out kwargs :
  well_formed (expected_groups pattern out kwargs) = true ->
  NoDup (Dict.keys (expected_groups pattern out kwargs)) ->
  out <> "" ->
  exists args,
    parse_args (collector_argv pattern out kwargs) = Ok args /\
    input_pattern args = pattern /\
    output_dir args = Some out /\
    (forall m, In ("metric_key", KwStr m) kwargs -> metric_key args = m) /\
    (forall p, In ("prefix", KwStr p) kwargs -> prefix args = p) /\
    (forall c, In ("collector", KwStr c) kwargs -> collector args = Some c) /\
    (forall a, In ("aggregation", KwStr a) kwargs ->
               In a aggregation_modes -> aggregation args = a) /\
    (forall b, In ("debug", KwBool b) kwargs -> debug args = true).
Proof.
  intros Hwf Hnd Hout.
  set (G := expected_groups pattern out kwargs) in *.
  assert (HG : parse_dynamic_args (collector_argv pattern out kwargs) = G).
  { rewrite collector_argv_ungroup.
    exact (RegroupFacts.regroup G [] None Hwf Hnd). }
  assert (Hgroup : forall key value f vs,
             In (key, value) kwargs ->
             In (f, vs) (kwarg_group (key, value)) ->
             Dict.get f G = Some vs).
  { intros key value f vs Hin Hitem. apply DictFacts.In_get; auto.
    now apply (kwarg_in_groups key value). }
  assert (Hdir : output_dir (fold_left process_flag G defaults) = Some out).
  { rewrite <- HG, ParseFacts.output_dir_of_groups, HG. reflexivity. }
  exists (fold_left process_flag G defaults).
  split; [|split; [|split; [exact Hdir|]]].
  - unfold parse_args. rewrite HG. unfold output_dir_missing. rewrite Hdir.
    destruct out; [congruence|reflexivity].
  - rewrite (ParseFacts.fold_field string input_pattern "--input-pattern"
               (fun vs old => first_or vs old)
               ParseFacts.step_input_pattern G defaults Hnd).
    reflexivity.
  - repeat split.
    + intros m Hin.
      rewrite (ParseFacts.fold_field string metric_key "--metric-key"
                 (fun vs old => first_or vs old)
                 ParseFacts.step_metric_key G defaults Hnd).
      rewrite (Hgroup "metric_key" (KwStr m) "--metric-key" [m] Hin);
        [reflexivity|now left].
    + intros p Hin.
      rewrite (ParseFacts.fold_field string prefix "--prefix"
                 (fun vs _ => first_or vs "")
                 ParseFacts.step_prefix G defaults Hnd).
      rewrite (Hgroup "prefix" (KwStr p) "--prefix" [p] Hin);
        [reflexivity|now left].
    + intros c Hin.
      rewrite (ParseFacts.fold_field (option string) collector "--collector"
                 (fun vs _ => first_opt vs)
                 ParseFacts.step_collector G defaults Hnd).
      rewrite (Hgroup "collector" (KwStr c) "--collector" [c] Hin);
        [reflexivity|now left].
    + intros a Hin Hmode.
      rewrite (ParseFacts.fold_field string aggregation "--aggregation"
                 pick_aggregation
                 ParseFacts.step_aggregation G defaults Hnd).
      rewrite (Hgroup "aggregation" (KwStr a) "--aggregation" [a] Hin);
        [|now left].
      unfold pick_aggregation.
      apply CollectorFacts.mem_In in Hmode. now rewrite Hmode.
    + intros b Hin.
      rewrite (ParseFacts.fold_field bool debug "--debug"
                 (fun _ _ => true)
                 ParseFacts.step_debug G defaults Hnd).
      destruct b.
      * rewrite (Hgroup "debug" (KwBool true) "--debug" [] Hin);
          [reflexivity|now left].
      * rewrite (Hgroup "debug" (KwBool false) "--debug" ["False"] Hin);
          [reflexivity|now left].
Qed.

Lemma harness_settings_witness :
  exists args,
    parse_args
      (collector_argv "in/**/*_data.json" "out"
         [("metric_key", KwStr "result"); ("aggregation", KwStr "avg");
          ("prefix", KwStr "test"); ("debug", KwBool false);
          ("collector", KwStr "yes"); ("skipped", KwNone)]) = Ok args /\
    aggregation args = "avg" /\
    debug args = true.
Proof.
  destruct (harness_settings "in/**/*_data.json" "out"
              [("metric_key", KwStr "result"); ("aggregation", KwStr "avg");
               ("prefix", KwStr "test"); ("debug", KwBool false);
               ("collector", KwStr "yes"); ("skipped", KwNone)])
    as (args & Hp & _ & _ & _ & _ & _ & Ha & Hd).
  - reflexivity.
  - repeat constructor; simpl; intuition discriminate.
  - discriminate.
  - exists args. split; [exact Hp|]. split.
    + apply Ha; simpl; tauto.
    + apply (Hd false). simpl. tauto.
Defined.

End HarnessFacts.

(* ------------------------------------------------------------------ *)
(** ** The harness and the written document *)

Module VerifyFacts.

Import Args Collector Harness.







End VerifyFacts.

(* ------------------------------------------------------------------ *)
(** ** What the written document depends on *)

Module IndependenceFacts.

Import Args Collector.







Lemma collect_app w args l1 : forall l2 acc,
  collect w args acc (l1 ++ l2) =
  (acc' <- collect w args acc l1 ;; collect w args acc' l2).
Proof.
  induction l1 as [|f l1 IH]; intros l2 acc; [reflexivity|].
  cbn [app collect].
  destruct (collect_step w args acc f) as [acc1|e]; cbn [Py.bind]; auto.
Qed.

(** The values gathered from a list of files do not depend on the
    detail entries gathered before. *)
Lemma collect_values w args files : forall acc acc2 c,
  values acc2 = values acc ->
  collect w args acc files = Ok c ->
  exists c2, collect w args acc2 files = Ok c2 /\ values c2 = values c.
Proof.
  induction files as [|f files IH]; intros acc acc2 c E H.
  - injection H as <-. exists acc2. auto.
  - cbn [collect] in *.
    destruct (collect_step w args acc f) as [acc1|e] eqn:Hs; [|discriminate].
    cbn [Py.bind] in H.
    assert (Hs2 : exists acc3,
               collect_step w args acc2 f = Ok acc3 /\
               values acc3 = values acc1).
    { revert Hs. unfold collect_step.
      destruct (negb (Py.eq_str _ "NA")).
      - destruct (Py.float _) as [x|[]]; intros [= <-];
          eexists; (split; [reflexivity|]); cbn; now rewrite ?E.
      - intros [= <-]. eexists. split; [reflexivity|]. exact E. }
    destruct Hs2 as (acc3 & Hs2 & E3). rewrite Hs2. cbn [Py.bind].
    now apply (IH acc1 acc3 c).
Qed.

(** X19: a file that degrades to not-available has no influence on the
    values: taking it out of the discovered files, wherever it stands,
    leaves the loop completing with the same [values]. *)
Theorem not_available_file_is_neutral w args l1 f l2 c :
  not_available w args f = true ->
  collect w args (mkCollected [] []) (l1 ++ f :: l2) = Ok c ->
  exists c',
    collect w args (mkCollected [] []) (l1 ++ l2) = Ok c' /\
    values c' = values c.
Proof.
  intros Hna H. rewrite collect_app in H. rewrite collect_app.
  destruct (collect w args (mkCollected [] []) l1) as [acc|e];
    [|discriminate].
  cbn [Py.bind] in *. cbn [collect] in H.
  destruct (CollectorFacts.not_available_step w args acc f Hna)
    as (entry & Hstep).
  rewrite Hstep in H. cbn [Py.bind] in H.
  apply (collect_values w args l2
           (mkCollected (values acc) (file_info acc ++ [entry])) acc c);
    auto.
Qed.

Lemma not_available_file_is_neutral_witness :
  exists c',
    collect Examples.world Examples.args_out (mkCollected [] [])
      (["data/good_a.json"] ++ ["data/good_b.json"]) = Ok c' /\
    values c' = [Float.Finite 10.5; Float.round 15.2].
Proof.
  apply (not_available_file_is_neutral Examples.world Examples.args_out
           ["data/good_a.json"] "data/bad_text.json" ["data/good_b.json"]
           (mkCollected [Float.Finite 10.5; Float.round 15.2]
              [detail_value "data/good_a.json" (Float.Finite 10.5);
               detail_non_numeric "data/bad_text.json";
               detail_value "data/good_b.json" (Float.round 15.2)]));
    vm_compute; reflexivity.
Defined.

End IndependenceFacts.
